(** * Room directory handlers of [backend/routes/api/rooms.js]

    The file holds two variants of the same router, one after the other:
    - the aggregate-cache variant (lines 1-347): every listing goes through
      one combined cache entry per query signature;
    - the split-cache variant (lines 348-673): a sorted set of room ids plus
      one detail entry per room.
    Both are embedded here, as [Aggregate] and [Split], over one model of the
    store, the cache backend and the socket. *)

From Stdlib Require Import ZArith Ascii String DecimalString.
From Stdlib Require DecimalPos DecimalN.
From stdpp Require Import base option list gmap sorting.

Local Open Scope Z_scope.

(** ** JavaScript strings

    A JS string is a sequence of UTF-16 code units. *)

Definition jstring := list N.

(** Literals are written in UTF-8 and decoded to code units. *)
Fixpoint utf16_of_utf8 (bs : list N) : jstring :=
  match bs with
  | [] => []
  | b :: r =>
      if (b <? 0x80)%N then b :: utf16_of_utf8 r
      else if (b <? 0xE0)%N then
        match r with
        | b2 :: r => (N.shiftl (N.land b 0x1F) 6 + N.land b2 0x3F)%N
                     :: utf16_of_utf8 r
        | _ => [b]
        end
      else if (b <? 0xF0)%N then
        match r with
        | b2 :: b3 :: r =>
            (N.shiftl (N.land b 0x0F) 12 + N.shiftl (N.land b2 0x3F) 6
             + N.land b3 0x3F)%N :: utf16_of_utf8 r
        | _ => [b]
        end
      else
        match r with
        | b2 :: b3 :: b4 :: r =>
            let cp := (N.shiftl (N.land b 0x07) 18 + N.shiftl (N.land b2 0x3F) 12
                       + N.shiftl (N.land b3 0x3F) 6 + N.land b4 0x3F - 0x10000)%N in
            (0xD800 + N.shiftr cp 10)%N :: (0xDC00 + N.land cp 0x3FF)%N
            :: utf16_of_utf8 r
        | _ => [b]
        end
  end.

Definition js (s : string) : jstring :=
  utf16_of_utf8 (map N_of_ascii (list_ascii_of_string s)).

(** [WhiteSpace] and [LineTerminator] of ECMAScript, the characters that
    [String.prototype.trim] and [parseInt] strip. *)
Definition isWhiteSpace (c : N) : bool :=
  (bool_decide (c ∈ [0x09; 0x0A; 0x0B; 0x0C; 0x0D; 0x20; 0xA0; 0x1680;
                      0x2028; 0x2029; 0x202F; 0x205F; 0x3000; 0xFEFF]%N)
   || ((0x2000 <=? c)%N && (c <=? 0x200A)%N))%bool.

Fixpoint trimStart (s : jstring) : jstring :=
  match s with
  | c :: r => if isWhiteSpace c then trimStart r else s
  | [] => []
  end.

Definition trimEnd (s : jstring) : jstring := rev (trimStart (rev s)).

Definition trim (s : jstring) : jstring := trimEnd (trimStart s).

(** Truthiness of a string: the empty string is the only falsy one. *)
Definition truthy_str (s : jstring) : bool :=
  match s with [] => false | _ => true end.

(** [String(n)] and [`${n}`] for an integer [n]. *)
Fixpoint digits_of_uint (d : Decimal.uint) : jstring :=
  match d with
  | Decimal.Nil => []
  | Decimal.D0 r => 48%N :: digits_of_uint r
  | Decimal.D1 r => 49%N :: digits_of_uint r
  | Decimal.D2 r => 50%N :: digits_of_uint r
  | Decimal.D3 r => 51%N :: digits_of_uint r
  | Decimal.D4 r => 52%N :: digits_of_uint r
  | Decimal.D5 r => 53%N :: digits_of_uint r
  | Decimal.D6 r => 54%N :: digits_of_uint r
  | Decimal.D7 r => 55%N :: digits_of_uint r
  | Decimal.D8 r => 56%N :: digits_of_uint r
  | Decimal.D9 r => 57%N :: digits_of_uint r
  end.

Definition String_of_Z (n : Z) : jstring :=
  match n with
  | Zneg p => 45%N :: digits_of_uint (Pos.to_uint p)
  | _ => digits_of_uint (N.to_uint (Z.to_N n))
  end.

(** ** [parseInt(string)] with no radix

    The result is [None] for NaN. Numbers are modelled as exact integers;
    the source's doubles agree with them up to 2^53. *)

Definition digit_value (radix : Z) (c : N) : option Z :=
  let c := Z.of_N c in
  let v := if (48 <=? c) && (c <=? 57) then Some (c - 48)
           else if (97 <=? c) && (c <=? 122) then Some (c - 87)
           else if (65 <=? c) && (c <=? 90) then Some (c - 55)
           else None in
  match v with
  | Some d => if d <? radix then Some d else None
  | None => None
  end.

(** Reads the longest prefix of digits; [acc] is [None] until a digit is
    seen. *)
Fixpoint read_digits (radix : Z) (acc : option Z) (s : jstring) : option Z :=
  match s with
  | c :: r =>
      match digit_value radix c with
      | Some d => read_digits radix (Some (default 0 acc * radix + d)) r
      | None => acc
      end
  | [] => acc
  end.

Definition parseInt_string (s : jstring) : option Z :=
  let s := trimStart s in
  let '(sign, s) :=
    match s with
    | 45%N :: r => (-1, r)
    | 43%N :: r => (1, r)
    | _ => (1, s)
    end in
  let '(radix, s) :=
    match s with
    | 48%N :: 120%N :: r => (16, r)
    | 48%N :: 88%N :: r => (16, r)
    | _ => (10, s)
    end in
  match read_digits radix None s with
  | Some m => Some (sign * m)
  | None => None
  end.

(** A query parameter is absent ([undefined]) or a string; [parseInt] of
    [undefined] reads the string "undefined" and yields NaN. *)
Definition parseInt (q : option jstring) : option Z :=
  match q with
  | Some s => parseInt_string s
  | None => None
  end.

(** [x || d] on a number: NaN and 0 are falsy. *)
Definition num_or (x : option Z) (d : Z) : Z :=
  match x with
  | Some 0 | None => d
  | Some n => n
  end.

(** ** Normalisation of the listing parameters (lines 80-86, 444-446) *)

Definition norm_page (q : option jstring) : Z :=
  Z.max 0 (num_or (parseInt q) 0).

Definition norm_pageSize (q : option jstring) : Z :=
  Z.min (Z.max 1 (num_or (parseInt q) 10)) 50.

Definition includes (l : list jstring) (q : option jstring) : bool :=
  match q with
  | Some s => bool_decide (s ∈ l)
  | None => false
  end.

Definition norm_sortField (q : option jstring) : jstring :=
  if includes [js "createdAt"; js "name"; js "participantsCount"] q
  then default [] q else js "createdAt".

Definition norm_sortOrder (q : option jstring) : jstring :=
  if includes [js "asc"; js "desc"] q then default [] q else js "desc".

Definition norm_search (q : option jstring) : jstring :=
  match q with
  | Some s => if truthy_str s then s else []
  | None => []
  end.

(** ** Doubles

    The default listing of the split-cache variant multiplies the page by
    the page size and prints the ranks with [String]; both happen in
    doubles. A number of that listing is a non-negative integer that a
    double holds, or [Infinity]. *)
Inductive jsnum :=
| Finite (n : Z)
| Infinity.

(** The double nearest to a non-negative integer, ties to the even
    mantissa; the exponent is not bounded here. Integers up to 2^53 are
    doubles. *)
Definition round_double (n : Z) : Z :=
  if n <? 2 ^ 53 then n
  else
    let e := Z.log2 n - 52 in
    let q := Z.shiftr n e in
    let r := n - Z.shiftl q e in
    let half := Z.shiftl 1 (e - 1) in
    let q := if (half <? r) || ((r =? half) && Z.odd q) then q + 1 else q in
    Z.shiftl q e.

(** The Number of a non-negative integer: what rounds to 2^1024 or more is
    [Infinity]. For a numeral of more than 20 significant digits
    [parseInt] may round a digit string that differs after the 20th digit;
    the correctly rounded value is taken. *)
Definition Number_of (n : Z) : jsnum :=
  let d := round_double n in
  if d <? 2 ^ 1024 then Finite d else Infinity.

(** [a * b], [a + b] and [a - b] for an integer [b] that is exact, [b >= 1]
    in the product. *)
Definition num_mul (a : jsnum) (b : Z) : jsnum :=
  match a with
  | Finite x => Number_of (x * b)
  | Infinity => Infinity
  end.

Definition num_add (a : jsnum) (b : Z) : jsnum :=
  match a with
  | Finite x => Number_of (x + b)
  | Infinity => Infinity
  end.

Definition num_sub (a : jsnum) (b : Z) : jsnum :=
  match a with
  | Finite x => Number_of (x - b)
  | Infinity => Infinity
  end.

(** [a < b] *)
Definition num_ltb (a : jsnum) (b : Z) : bool :=
  match a with
  | Finite x => x <? b
  | Infinity => false
  end.

(** The digits of [Number::toString]: the least number [k] of digits and an
    integer [s] of [k] digits such that [s * 10^(n-k)] rounds to the
    double [m]; of two such [s] the one nearer to [m]. The result is [s]
    with [n]. *)
Fixpoint shortest_digits (fuel : nat) (k n m : Z) : Z * Z :=
  match fuel with
  | O => (m, n)
  | S fuel' =>
      let scale := 10 ^ (n - k) in
      let lo := m / scale in
      let hi := lo + 1 in
      let ok_lo := round_double (lo * scale) =? m in
      let ok_hi := round_double (hi * scale) =? m in
      let pick s := if s =? 10 ^ k then (1, n + 1) else (s, n) in
      if ok_lo && ok_hi then
        if m - lo * scale <=? hi * scale - m then pick lo else pick hi
      else if ok_lo then pick lo
      else if ok_hi then pick hi
      else shortest_digits fuel' (k + 1) n m
  end.

(** [String(x)]. Below 2^53 every integer is a double and the digits are
    all its digits. From there on the digits are the shortest that read
    back as the double, of which seventeen always suffice: filled up with
    zeros while the number has at most 21 digits, and in the form
    [d.ddde+x] beyond. *)
Definition Number_toString (x : jsnum) : jstring :=
  match x with
  | Finite m =>
      if m <? 2 ^ 53 then String_of_Z m
      else
        let '(s, n) :=
          shortest_digits 17 1 (Z.of_nat (length (String_of_Z m))) m in
        let digits := String_of_Z s in
        if n <=? 21 then
          digits ++ replicate (Z.to_nat (n - Z.of_nat (length digits))) 48%N
        else
          match digits with
          | [d] => d :: js "e+" ++ String_of_Z (n - 1)
          | d :: rest => d :: 46%N :: rest ++ js "e+" ++ String_of_Z (n - 1)
          | [] => []
          end
  | Infinity => js "Infinity"
  end.

(** ** JavaScript values *)

#[local] Set Warnings "-register-all".

Inductive jsval :=
| JUndefined
| JNull
| JBool (b : bool)
| JNum (n : Z)
| JStr (s : jstring)
| JArr (l : list jsval)
| JObj (fields : list (jstring * jsval)).

(** [Boolean(v)], the test of [if (v)], [!v] and [filter(Boolean)]. *)
Definition truthy (v : jsval) : bool :=
  match v with
  | JUndefined | JNull => false
  | JBool b => b
  | JNum n => negb (n =? 0)
  | JStr s => truthy_str s
  | JArr _ | JObj _ => true
  end.

(** Property read [o.k]: [undefined] when absent or when [o] is no object. *)
Fixpoint field_lookup (k : jstring) (fs : list (jstring * jsval)) : option jsval :=
  match fs with
  | (k', v) :: r => if decide (k' = k) then Some v else field_lookup k r
  | [] => None
  end.

Definition get_field (k : jstring) (o : jsval) : jsval :=
  match o with
  | JObj fs => default JUndefined (field_lookup k fs)
  | _ => JUndefined
  end.

(** [{ ...o, k: v }]: the own properties of [o], then [k] set to [v]; an
    existing [k] keeps its place. *)
Fixpoint set_field (k : jstring) (v : jsval) (fs : list (jstring * jsval))
  : list (jstring * jsval) :=
  match fs with
  | (k', v') :: r =>
      if decide (k' = k) then (k, v) :: r else (k', v') :: set_field k v r
  | [] => [(k, v)]
  end.

(** What [JSON.stringify] puts on the wire, read back by [JSON.parse]:
    properties whose value is [undefined] are left out, [undefined] in an
    array becomes [null]. [res.json], the socket emit and the cache writes
    all serialise this way. *)
Fixpoint json (v : jsval) : jsval :=
  match v with
  | JArr l =>
      JArr (map (fun x => match x with JUndefined => JNull | _ => json x end) l)
  | JObj fs =>
      JObj ((fix props (fs : list (jstring * jsval)) :=
               match fs with
               | (_, JUndefined) :: r => props r
               | (k, x) :: r => (k, json x) :: props r
               | [] => []
               end) fs)
  | _ => v
  end.

Definition json_props (fs : list (jstring * jsval)) : list (jstring * jsval) :=
  match json (JObj fs) with
  | JObj fs' => fs'
  | _ => []
  end.

(** A property is present on the wire. *)
Definition has_field (k : jstring) (o : jsval) : bool :=
  match json o with
  | JObj fs => bool_decide (is_Some (field_lookup k fs))
  | _ => false
  end.

(** ** Documents of the Primary Store *)

(** Modelled from the spec: the schemas [models/Room.js] and
    [models/User.js] are not part of the sources. The fields are those of
    section 3 of the spec and those the handlers read. Dates are kept as
    milliseconds since the epoch. *)
Record User := {
  user_id : jstring;
  user_name : jstring;
  user_email : jstring;
}.

Record Room := {
  room_id : jstring;
  room_name : jstring;
  room_creator : jstring;
  room_participants : list jstring;
  room_password : option jstring;
  room_hasPassword : bool;
  room_createdAt : Z;
}.

Definition find_user (users : list User) (id : jstring) : option User :=
  List.find (fun u => bool_decide (user_id u = id)) users.

Definition find_room (rooms : list Room) (id : jstring) : option Room :=
  List.find (fun r => bool_decide (room_id r = id)) rooms.

(** A populated reference, restricted to [name email]. *)
Definition user_obj (u : User) : jsval :=
  JObj [(js "_id", JStr (user_id u)); (js "name", JStr (user_name u));
        (js "email", JStr (user_email u))].

(** [populate('creator', 'name email')]: [null] when the user is gone. *)
Definition populate_creator (users : list User) (id : jstring) : jsval :=
  match find_user users id with
  | Some u => user_obj u
  | None => JNull
  end.

(** [populate('participants', 'name email')]: missing users are dropped. *)
Definition populate_participants (users : list User) (ids : list jstring) : jsval :=
  JArr (omap (fun id => user_obj <$> find_user users id) ids).

Definition id_refs (ids : list jstring) : jsval := JArr (JStr <$> ids).

(** The plain object of a room document ([toObject()], [lean()]).
    [with_password] says whether the password path was selected. *)
Definition room_obj (with_password : bool) (creator participants : jsval)
    (r : Room) : list (jstring * jsval) :=
  [(js "_id", JStr (room_id r)); (js "name", JStr (room_name r));
   (js "creator", creator); (js "participants", participants);
   (js "hasPassword", JBool (room_hasPassword r));
   (js "createdAt", JNum (room_createdAt r))]
  ++ match room_password r with
     | Some p => if with_password then [(js "password", JStr p)] else []
     | None => []
     end.

(** ** The cache backend (Redis) *)

(** A key holds a serialised value with its time to live in seconds, or a
    sorted set of members with scores. Expiry is not modelled: every read
    happens within the time to live of what it reads. *)
Inductive rentry :=
| RString (v : jsval) (ttl : option Z)
| RZSet (members : gmap jstring Z).

(** Lexicographic order on code units, Redis' order of members with equal
    scores. *)
Fixpoint str_leb (a b : jstring) : bool :=
  match a, b with
  | [], _ => true
  | _ :: _, [] => false
  | x :: a', y :: b' => (x <? y)%N || ((x =? y)%N && str_leb a' b')
  end.

(** [x] comes before [y] in descending order of score, then of member. *)
Definition zrev_before (x y : jstring * Z) : bool :=
  (x.2 >? y.2) || ((x.2 =? y.2) && str_leb y.1 x.1).

Definition zrev_order (members : gmap jstring Z) : list (jstring * Z) :=
  merge_sort (fun x y => Is_true (zrev_before x y)) (map_to_list members).

(** Rank arguments count from the end when negative. *)
Definition zindex (card i : Z) : Z := if i <? 0 then Z.max 0 (card + i) else i.

(** [ZREVRANGE key start stop]: the members of ranks [start..stop], both
    included, highest score first. *)
Definition zrevrange (members : gmap jstring Z) (start stop : Z) : list jstring :=
  let card := Z.of_nat (size members) in
  let a := zindex card start in
  let b := Z.min (zindex card stop) (card - 1) in
  if (a >? b) || (card <=? a) then []
  else (take (Z.to_nat (b - a + 1)) (drop (Z.to_nat a) (zrev_order members))).*1.

(** A glob pattern of [SCAN MATCH] with [*] and [?]. *)
Fixpoint glob (p s : jstring) : bool :=
  match p with
  | [] => match s with [] => true | _ => false end
  | 42%N :: p' =>
      (fix star (s : jstring) : bool :=
         glob p' s || match s with _ :: s' => star s' | [] => false end) s
  | 63%N :: p' => match s with _ :: s' => glob p' s' | [] => false end
  | c :: p' =>
      match s with d :: s' => (c =? d)%N && glob p' s' | [] => false end
  end.

(** ** Operations on the collaborators

    Every call that leaves the process is recorded, in order, with its
    arguments; [console.error]/[console.log] and socket emits are recorded
    too. *)
Inductive Op :=
| RedisConnect
| RedisGet (key : jstring)
| RedisSet (key : jstring) (value : jsval) (ttl : Z)
| RedisDel (keys : list jstring)
| RedisScan (pattern : jstring)
| RedisZRevRange (key : jstring) (start stop : jstring)
| RedisZAdd (key : jstring) (score : Z) (member : jstring)
| RedisZCard (key : jstring)
| MongoCount (search : jstring)
| MongoAggregate (search sortField sortOrder : jstring) (skip limit : Z)
| MongoFind (search : jstring) (skip limit : Z)
| MongoFindById (id : jstring)
| MongoInsert (name creator : jstring) (password : option jstring)
| MongoUpdate (id : jstring) (participants : list jstring)
| MongoPopulate (id : jstring)
| MongoCheckPassword (id password : jstring)
| ConsoleError (tag : jstring)
| ConsoleLog (tag : jstring)
| Emit (channel event : jstring) (payload : jsval).

Definition is_cache_op (o : Op) : bool :=
  match o with
  | RedisConnect | RedisGet _ | RedisSet _ _ _ | RedisDel _ | RedisScan _
  | RedisZRevRange _ _ _ | RedisZAdd _ _ _ | RedisZCard _ => true
  | _ => false
  end.

Definition is_store_op (o : Op) : bool :=
  match o with
  | MongoCount _ | MongoAggregate _ _ _ _ _ | MongoFind _ _ _ | MongoFindById _
  | MongoInsert _ _ _ | MongoUpdate _ _ | MongoPopulate _
  | MongoCheckPassword _ _ => true
  | _ => false
  end.

Definition is_store_write (o : Op) : bool :=
  match o with
  | MongoInsert _ _ _ | MongoUpdate _ _ => true
  | _ => false
  end.

(** What the handlers take from outside the sources. *)
Record Env := {
  (** a collaborator call fails: [fault n op] is the error message when the
      call [op], made after [n] recorded operations, throws *)
  fault : nat -> Op -> option jstring;
  (** the store's case-insensitive [$regex] match of a pattern on a name *)
  regex_i : jstring -> jstring -> bool;
  (** the identifier the store assigns to the [n]-th inserted room *)
  objectId : nat -> jstring;
  (** the stored secret of a password (the schema's save hook) *)
  hash : jstring -> jstring;
  (** the schema's [checkPassword]: a plain password against a stored secret *)
  verify : jstring -> jstring -> bool;
  (** whether a query without [select('+password')] loads the password *)
  password_selected : bool;
}.

Record World := {
  env : Env;
  rooms : list Room;
  users : list User;
  redis : gmap jstring rentry;
  io : bool;
  now : Z;
  trace : list Op;
}.

Definition set_rooms (f : list Room -> list Room) (w : World) : World :=
  {| env := env w; rooms := f (rooms w); users := users w; redis := redis w;
     io := io w; now := now w; trace := trace w |}.

Definition set_redis (f : gmap jstring rentry -> gmap jstring rentry)
    (w : World) : World :=
  {| env := env w; rooms := rooms w; users := users w; redis := f (redis w);
     io := io w; now := now w; trace := trace w |}.

Definition record (o : Op) (w : World) : World :=
  {| env := env w; rooms := rooms w; users := users w; redis := redis w;
     io := io w; now := now w; trace := trace w ++ [o] |}.

(** ** Awaited calls: state, exceptions and the trace *)

Inductive Outcome (A : Type) :=
| Ok (a : A)
| Throw (message : jstring).
Arguments Ok {A} a.
Arguments Throw {A} message.

Definition M (A : Type) : Type := World -> Outcome A * World.

Definition ret {A} (a : A) : M A := fun w => (Ok a, w).

Definition bind {A B} (m : M A) (k : A -> M B) : M B :=
  fun w =>
    match m w with
    | (Ok a, w') => k a w'
    | (Throw e, w') => (Throw e, w')
    end.

Definition throw {A} (e : jstring) : M A := fun w => (Throw e, w).

(** [try { m } catch (e) { h e }] *)
Definition try_catch {A} (m : M A) (h : jstring -> M A) : M A :=
  fun w =>
    match m w with
    | (Ok a, w') => (Ok a, w')
    | (Throw e, w') => h e w'
    end.

Declare Scope js_scope.
Delimit Scope js_scope with JS.
Notation "'let*' x := m 'in' k" := (bind m (fun x => k))
  (at level 10, x name, m at level 100, k at level 200) : js_scope.
Notation "m ;; k" := (bind m (fun _ => k))
  (at level 100, k at level 200, right associativity) : js_scope.
Local Open Scope js_scope.

(** A call to a collaborator: recorded, then it throws if the environment
    says so, else it takes effect. *)
Definition call {A} (o : Op) (effect : M A) : M A :=
  fun w =>
    match fault (env w) (length (trace w)) o with
    | Some e => (Throw e, record o w)
    | None => effect (record o w)
    end.

(** A local effect that cannot fail ([console.error], an emit). *)
Definition note (o : Op) : M unit := fun w => (Ok tt, record o w).

Definition read {A} (f : World -> A) : M A := fun w => (Ok (f w), w).

Definition modify (f : World -> World) : M unit := fun w => (Ok tt, f w).

(** [Promise.all(l.map(f))]: every call is issued, in order; the result is
    rejected if one of them is. *)
Fixpoint promise_all {A} (ms : list (M A)) : M (list A) :=
  fun w =>
    match ms with
    | [] => (Ok [], w)
    | m :: r =>
        let '(o, w1) := m w in
        let '(os, w2) := promise_all r w1 in
        (match o, os with
         | Ok a, Ok l => Ok (a :: l)
         | Throw e, _ => Throw e
         | Ok _, Throw e => Throw e
         end, w2)
    end.

Definition WRONGTYPE : jstring :=
  js "WRONGTYPE Operation against a key holding the wrong kind of value".

Definition ERR_not_an_integer : jstring :=
  js "ERR value is not an integer or out of range".

Definition is_digit (c : N) : bool := (48 <=? c)%N && (c <=? 57)%N.

(** The digits of an integer argument: no leading zero, nothing but
    digits. *)
Definition ll_magnitude (s : jstring) : option Z :=
  match s with
  | c :: _ =>
      if (49 <=? c)%N && forallb is_digit s then read_digits 10 None s
      else None
  | [] => None
  end.

(** How Redis reads an integer argument ([string2ll]): a decimal numeral,
    [-] the only sign, within the signed 64 bits. *)
Definition string2ll (s : jstring) : option Z :=
  match s with
  | [48%N] => Some 0
  | 45%N :: r =>
      match ll_magnitude r with
      | Some v => if v <=? 2 ^ 63 then Some (- v) else None
      | None => None
      end
  | _ =>
      match ll_magnitude s with
      | Some v => if v <? 2 ^ 63 then Some v else None
      | None => None
      end
  end.

(** *** Cache commands *)

Definition redis_connect : M unit := call RedisConnect (ret tt).

(** [GET key]: the stored value, or nothing. *)
Definition redis_get (key : jstring) : M (option jsval) :=
  call (RedisGet key)
    (let* r := read redis in
     match r !! key with
     | Some (RString v _) => ret (Some v)
     | Some (RZSet _) => throw WRONGTYPE
     | None => ret None
     end).

(** [SET key value EX ttl], the value serialised. *)
Definition redis_set (key : jstring) (v : jsval) (ttl : Z) : M unit :=
  call (RedisSet key (json v) ttl)
    (modify (set_redis (insert key (RString (json v) (Some ttl))))).

(** [DEL key ...] *)
Definition redis_del (keys : list jstring) : M unit :=
  call (RedisDel keys)
    (modify (set_redis (fun r => foldr delete r keys))).

(** [SCAN ... MATCH pattern], iterated to the end. *)
Definition redis_scan (pattern : jstring) : M (list jstring) :=
  call (RedisScan pattern)
    (read (fun w => filter (fun k => Is_true (glob pattern k))
                      (map_to_list (redis w)).*1)).

(** [ZREVRANGE key start stop] as [sendCommand] sends it, the ranks as
    strings. Redis reads the ranks first and refuses what is no integer of
    64 bits. *)
Definition redis_zrevrange (key : jstring) (start stop : jstring)
  : M (list jstring) :=
  call (RedisZRevRange key start stop)
    match string2ll start, string2ll stop with
    | Some a, Some b =>
        let* r := read redis in
        match r !! key with
        | Some (RZSet m) => ret (zrevrange m a b)
        | Some (RString _ _) => throw WRONGTYPE
        | None => ret []
        end
    | _, _ => throw ERR_not_an_integer
    end.

Definition redis_zcard (key : jstring) : M Z :=
  call (RedisZCard key)
    (let* r := read redis in
     match r !! key with
     | Some (RZSet m) => ret (Z.of_nat (size m))
     | Some (RString _ _) => throw WRONGTYPE
     | None => ret 0
     end).

Definition redis_zadd (key : jstring) (score : Z) (member : jstring) : M unit :=
  call (RedisZAdd key score member)
    (let* r := read redis in
     match r !! key with
     | Some (RZSet m) =>
         modify (set_redis (insert key (RZSet (<[member:=score]> m))))
     | Some (RString _ _) => throw WRONGTYPE
     | None => modify (set_redis (insert key (RZSet {[member:=score]})))
     end).

(** *** Store queries *)

(** The value a [$sort] stage compares. A path the stored documents do not
    have compares as null; [participantsCount] is such a path, the pipeline
    adds it in the [$addFields] stage that follows the sort (lines
    112-115). *)
Inductive SortKey :=
| KNull
| KNum (n : Z)
| KStr (s : jstring).

Definition key_leb (a b : SortKey) : bool :=
  match a, b with
  | KNull, _ => true
  | _, KNull => false
  | KNum x, KNum y => x <=? y
  | KNum _, KStr _ => true
  | KStr _, KNum _ => false
  | KStr x, KStr y => str_leb x y
  end.

Definition sort_key (field : jstring) (r : Room) : SortKey :=
  if decide (field = js "createdAt") then KNum (room_createdAt r)
  else if decide (field = js "name") then KStr (room_name r)
  else KNull.

(** [sort({ [field]: direction })]; documents with equal keys keep their
    order. *)
Definition mongo_sort (field : jstring) (descending : bool) (l : list Room)
  : list Room :=
  merge_sort
    (fun a b => Is_true (if descending
                         then key_leb (sort_key field b) (sort_key field a)
                         else key_leb (sort_key field a) (sort_key field b))) l.

(** The filter [{}], or [{ name: { $regex: search, $options: 'i' } }] when
    the search term is truthy. *)
Definition matches (e : Env) (search : jstring) (r : Room) : bool :=
  if truthy_str search then regex_i e search (room_name r) else true.

Definition skip_limit {A} (skip limit : Z) (l : list A) : list A :=
  take (Z.to_nat limit) (drop (Z.to_nat skip) l).

(** The document the aggregation pipeline of lines 110-137 projects: the
    creator is joined from the users, [participantsCount] is added after
    the sort stage. *)
Definition project_room (us : list User) (r : Room) : jsval :=
  JObj [(js "_id", JStr (room_id r)); (js "name", JStr (room_name r));
        (js "hasPassword", JBool (room_hasPassword r));
        (js "creator",
          match find_user us (room_creator r) with
          | Some u => user_obj u
          | None => JObj []
          end);
        (js "participantsCount", JNum (Z.of_nat (length (room_participants r))));
        (js "createdAt", JNum (room_createdAt r))].

Definition Room_countDocuments (search : jstring) : M Z :=
  call (MongoCount search)
    (read (fun w =>
       Z.of_nat (length (List.filter (matches (env w) search) (rooms w))))).

Definition Room_aggregate (search sortField sortOrder : jstring)
    (skip limit : Z) : M (list jsval) :=
  call (MongoAggregate search sortField sortOrder skip limit)
    (read (fun w =>
       project_room (users w) <$>
         skip_limit skip limit
           (mongo_sort sortField (bool_decide (sortOrder = js "desc"))
              (List.filter (matches (env w) search) (rooms w))))).

(** [find(filter).sort({ createdAt: -1 }).skip(..).limit(..)
     .populate('creator', 'name email').lean()] *)
Definition lean_room (w : World) (r : Room) : jsval :=
  JObj (room_obj (password_selected (env w))
          (populate_creator (users w) (room_creator r))
          (id_refs (room_participants r)) r).

Definition Room_find (search : jstring) (skip limit : Z) : M (list jsval) :=
  call (MongoFind search skip limit)
    (read (fun w =>
       lean_room w <$>
         skip_limit skip limit
           (mongo_sort (js "createdAt") true
              (List.filter (matches (env w) search) (rooms w))))).

Definition Room_findById (id : jstring) : M (option Room) :=
  call (MongoFindById id) (read (fun w => find_room (rooms w) id)).

(** Modelled from the spec: the save hook of the schema [models/Room.js],
    which is not part of the sources. The document of
    [new Room({ name, creator, participants: [creator], password }).save()]
    gets its identifier and creation time from the store, its secret is
    stored hashed, and [hasPassword] says whether there is one (spec,
    section 3). *)
Definition new_room (w : World) (name creator : jstring)
    (password : option jstring) : Room :=
  let secret := match password with
                | Some p => if truthy_str p then Some (hash (env w) p) else None
                | None => None
                end in
  {| room_id := objectId (env w) (length (rooms w));
     room_name := name;
     room_creator := creator;
     room_participants := [creator];
     room_password := secret;
     room_hasPassword := bool_decide (is_Some secret);
     room_createdAt := now w |}.

Definition Room_insert (name creator : jstring) (password : option jstring)
  : M Room :=
  call (MongoInsert name creator password)
    (let* r := read (fun w => new_room w name creator password) in
     modify (set_rooms (fun l => l ++ [r]));;
     ret r).

(** [room.save()] of a loaded document. *)
Definition Room_save (r : Room) : M unit :=
  call (MongoUpdate (room_id r) (room_participants r))
    (modify (set_rooms (map (fun x =>
       if decide (room_id x = room_id r) then r else x)))).

(** [room.populate('participants', 'name email')] *)
Definition Room_populate_participants (r : Room) : M jsval :=
  call (MongoPopulate (room_id r))
    (read (fun w => populate_participants (users w) (room_participants r))).

(** Modelled from the spec: the method [checkPassword] of the schema
    [models/Room.js], which is not part of the sources; password
    verification is a collaborator (spec, section 1), here [verify]. *)
Definition Room_checkPassword (r : Room) (password : jstring) : M bool :=
  call (MongoCheckPassword (room_id r) password)
    (read (fun w => match room_password r with
                    | Some secret => verify (env w) password secret
                    | None => true
                    end)).

(** ** Requests and responses *)

(** [req.user.id] is the authenticated principal; the rate limiter and the
    authentication middleware run before the handlers. *)
Record ListReq := {
  l_user : jstring;
  l_page : option jstring;
  l_pageSize : option jstring;
  l_sortField : option jstring;
  l_sortOrder : option jstring;
  l_search : option jstring;
}.

Record CreateReq := {
  c_user : jstring;
  c_name : jsval;
  c_password : option jstring;
}.

Record JoinReq := {
  j_user : jstring;
  j_roomId : jstring;
  j_password : option jstring;
}.

(** [res.status(status).json(body)] *)
Record Response := {
  status : Z;
  body : jsval;
}.

Definition res_json (st : Z) (b : jsval) : M Response :=
  ret {| status := st; body := b |}.

(** *** Expression helpers *)

(** [a || b] *)
Definition js_or (a b : jsval) : jsval := if truthy a then a else b.

(** [v?.toString()] of an identifier, which is a string when present. *)
Definition opt_toString (v : jsval) : jsval :=
  match v with
  | JStr s => JStr s
  | JNum n => JStr (String_of_Z n)
  | _ => JUndefined
  end.

(** [v === s] for a string [s] *)
Definition strict_eq_str (v : jsval) (s : jstring) : bool :=
  match v with
  | JStr t => bool_decide (t = s)
  | _ => false
  end.

(** [Math.ceil(a / b)] for [a >= 0] and [b >= 1] *)
Definition ceil_div (a b : Z) : Z := (a + b - 1) / b.

(** [name?.trim()]: only strings have [trim]. *)
Definition opt_trim (name : jsval) : M jsval :=
  match name with
  | JUndefined | JNull => ret JUndefined
  | JStr s => ret (JStr (trim s))
  | _ => throw (js "name.trim is not a function")
  end.

Definition str_of (v : jsval) : jstring :=
  match v with JStr s => s | _ => [] end.

(** [{ ...room, password: undefined }] *)
Definition strip_password (o : list (jstring * jsval)) : jsval :=
  JObj (set_field (js "password") JUndefined o).

Definition list_metadata (total page pageSize : Z) (shown : nat)
    (hasMore : bool) (field order : jstring) : jsval :=
  JObj [(js "total", JNum total); (js "page", JNum page);
        (js "pageSize", JNum pageSize);
        (js "totalPages", JNum (ceil_div total pageSize));
        (js "hasMore", JBool hasMore);
        (js "currentCount", JNum (Z.of_nat shown));
        (js "sort", JObj [(js "field", JStr field); (js "order", JStr order)])].

(** A number in a response body; [Infinity] is sent as [null]. *)
Definition num_json (x : jsnum) : jsval :=
  match x with
  | Finite n => JNum n
  | Infinity => JNull
  end.

(** The metadata with the page as the handler holds it. *)
Definition list_metadata_of (total : Z) (page : jsval) (pageSize : Z)
    (shown : nat) (hasMore : bool) (field order : jstring) : jsval :=
  JObj [(js "total", JNum total); (js "page", page);
        (js "pageSize", JNum pageSize);
        (js "totalPages", JNum (ceil_div total pageSize));
        (js "hasMore", JBool hasMore);
        (js "currentCount", JNum (Z.of_nat shown));
        (js "sort", JObj [(js "field", JStr field); (js "order", JStr order)])].

Definition list_response (data : list jsval) (metadata : jsval) : jsval :=
  JObj [(js "success", JBool true); (js "data", JArr data);
        (js "metadata", metadata)].

Definition rooms_fetch_error : jsval :=
  JObj [(js "success", JBool false);
        (js "error",
          JObj [(js "message", JStr (js "채팅방 목록을 불러오는데 실패했습니다."));
                (js "code", JStr (js "ROOMS_FETCH_ERROR"))])].

Definition server_error (message : jstring) : jsval :=
  JObj [(js "success", JBool false);
        (js "message", JStr (js "서버 에러가 발생했습니다."));
        (js "error", JStr message)].

Definition name_required : jsval :=
  JObj [(js "success", JBool false);
        (js "message", JStr (js "방 이름은 필수입니다."))].

Definition room_not_found : jsval :=
  JObj [(js "success", JBool false);
        (js "message", JStr (js "채팅방을 찾을 수 없습니다."))].

Definition password_required : jsval :=
  JObj [(js "success", JBool false);
        (js "message", JStr (js "비밀번호를 입력해주세요."))].

Definition password_mismatch : jsval :=
  JObj [(js "success", JBool false);
        (js "message", JStr (js "비밀번호가 일치하지 않습니다."))].

Definition created_response (room : list (jstring * jsval)) : jsval :=
  JObj [(js "success", JBool true); (js "data", strip_password room)].

Definition TypeError_null (property : string) : jstring :=
  js "Cannot read properties of null (reading '" ++ js property ++ js "')".

(** [populatedRoom.toObject()] after
    [findById(id).populate('creator', ..).populate('participants', ..)] *)
Definition populated_room (w : World) (r : Room) : list (jstring * jsval) :=
  room_obj (password_selected (env w))
    (populate_creator (users w) (room_creator r))
    (populate_participants (users w) (room_participants r)) r.

(** ** The aggregate-cache variant (lines 1-347) *)

Module Aggregate.

(** Modelled from the spec: the cache client [utils/redisClient.js] is not
    part of the sources. Its [get] yields the stored page or [null], its
    [set] stores a value with a time to live, its [del] removes a key
    (spec 4.3: get, put, invalidate). *)
Definition redisClient_get (key : jstring) : M jsval :=
  let* v := redis_get key in ret (default JNull v).

Definition redisClient_set (key : jstring) (v : jsval) (ttl : Z) : M unit :=
  redis_set key v ttl.

Definition redisClient_del (key : jstring) : M unit := redis_del [key].

(** Line 89 *)
Definition cacheKey (page pageSize : Z) (sortField sortOrder search : jstring)
  : jstring :=
  js "chat:rooms:list:page=" ++ String_of_Z page
  ++ js ":size=" ++ String_of_Z pageSize
  ++ js ":sort=" ++ sortField ++ js ":" ++ sortOrder
  ++ js ":search=" ++ search.

(** Lines 139-151 *)
Definition safeRoom (user : jstring) (date : Z) (room : jsval) : jsval :=
  let creator := get_field (js "creator") room in
  JObj [(js "_id",
          js_or (opt_toString (get_field (js "_id") room)) (JStr (js "unknown")));
        (js "name", js_or (get_field (js "name") room) (JStr (js "제목 없음")));
        (js "hasPassword", JBool (truthy (get_field (js "hasPassword") room)));
        (js "creator",
          JObj [(js "_id",
                  js_or (opt_toString (get_field (js "_id") creator))
                        (JStr (js "unknown")));
                (js "name",
                  js_or (get_field (js "name") creator) (JStr (js "알 수 없음")));
                (js "email", js_or (get_field (js "email") creator) (JStr []))]);
        (js "participantsCount",
          js_or (get_field (js "participantsCount") room) (JNum 0));
        (js "createdAt", js_or (get_field (js "createdAt") room) (JNum date));
        (js "isCreator",
          JBool (strict_eq_str (opt_toString (get_field (js "_id") creator)) user))].

(** [router.get('/')], lines 77-193 *)
Definition get_rooms (req : ListReq) : M Response :=
  try_catch
    (let page := norm_page (l_page req) in
     let pageSize := norm_pageSize (l_pageSize req) in
     let sortField := norm_sortField (l_sortField req) in
     let sortOrder := norm_sortOrder (l_sortOrder req) in
     let search := norm_search (l_search req) in
     let key := cacheKey page pageSize sortField sortOrder search in
     let* cached :=
       try_catch (redisClient_get key)
         (fun _ => note (ConsoleError (js "Redis get error:"));; ret JNull) in
     if truthy cached then res_json 200 cached
     else
       let* totalCount := Room_countDocuments search in
       let skip := page * pageSize in
       let* rooms := Room_aggregate search sortField sortOrder skip pageSize in
       let* date := read now in
       let safeRooms := safeRoom (l_user req) date <$> rooms in
       let hasMore := skip + Z.of_nat (length rooms) <? totalCount in
       let responseData :=
         list_response safeRooms
           (list_metadata totalCount page pageSize (length safeRooms) hasMore
              sortField sortOrder) in
       try_catch (redisClient_set key responseData 60)
         (fun _ => note (ConsoleError (js "Redis set error:")));;
       res_json 200 responseData)
    (fun _ =>
       note (ConsoleError (js "방 목록 조회 에러:"));;
       res_json 500 rooms_fetch_error).

(** The one key that creation deletes (line 229). *)
Definition representative_key : jstring :=
  js "chat:rooms:list:page=0:size=10:sort=createdAt:desc:search=".

(** [router.post('/')], lines 196-249 *)
Definition post_rooms (req : CreateReq) : M Response :=
  try_catch
    (let* trimmed := opt_trim (c_name req) in
     if negb (truthy trimmed) then res_json 400 name_required
     else
       let* savedRoom := Room_insert (str_of trimmed) (c_user req) (c_password req) in
       let* found := Room_findById (room_id savedRoom) in
       let* socket := read io in
       let* populatedRoom :=
         match found with
         | Some r => read (fun w => Some (populated_room w r))
         | None => ret None
         end in
       (if socket then
          match populatedRoom with
          | Some o => note (Emit (js "room-list") (js "roomCreated") (strip_password o))
          | None => throw (TypeError_null "toObject")
          end
        else ret tt);;
       try_catch (redisClient_del representative_key)
         (fun _ => note (ConsoleError (js "Redis del error:")));;
       match populatedRoom with
       | Some o => res_json 201 (created_response o)
       | None => throw (TypeError_null "toObject")
       end)
    (fun e =>
       note (ConsoleError (js "방 생성 에러:"));;
       res_json 500 (server_error e)).

End Aggregate.

(** ** The split-cache variant (lines 348-673) *)

Module Split.

Definition index_key : jstring := js "chat:rooms:ids".

(** [`chat:room:${id}`] *)
Definition detail_key (id : jstring) : jstring := js "chat:room:" ++ id.

(** [deleteRoomListCacheByPattern], lines 359-373. No handler calls it. *)
Definition deleteRoomListCacheByPattern (pattern : jstring) : M unit :=
  try_catch
    (redis_connect;;
     let* keys := redis_scan pattern in
     if 0 <? Z.of_nat (length keys) then
       redis_del keys;;
       note (ConsoleLog (js "[Redis] Deleted keys: "))
     else ret tt)
    (fun _ => note (ConsoleError (js "Redis pattern delete error:"))).

Definition default_pattern : jstring := js "chat:rooms:list:*".

(** The loop of lines 457-467: an entry the detail cache lacks is read from
    the store and, when the store has it, written back for 3600 seconds. *)
Fixpoint repair (roomIds : list jstring) (rooms : list (option jsval))
  : M (list (option jsval)) :=
  match roomIds, rooms with
  | id :: roomIds', r :: rooms' =>
      let* r' :=
        match r with
        | Some v => ret (Some v)
        | None =>
            let* found := Room_findById id in
            match found with
            | Some d =>
                let* dbRoom := read (fun w => lean_room w d) in
                redis_set (detail_key id) dbRoom 3600;;
                ret (Some (json dbRoom))
            | None => ret None
            end
        end in
      let* rest := repair roomIds' rooms' in
      ret (r' :: rest)
  | _, _ => ret []
  end.

(** Line 469: parse what is a string, drop what is falsy. *)
Definition parsed (rooms : list (option jsval)) : list jsval :=
  List.filter truthy (default JNull <$> rooms).

(** [router.get('/')], lines 442-525.

    Without a search term the page, the ranks [start] and [end] and the
    sum in [hasMore] are doubles, and the ranks go to the index as
    [String(start)] and [String(end)]: exact below 2^53, rounded above, in
    exponent notation from 1e21. The page size is at most 50 and exact.
    With a search term the page stays the integer that [parseInt] reads:
    how the store takes a skip beyond 2^53 is not modelled. *)
Definition get_rooms (req : ListReq) : M Response :=
  try_catch
    (let page := norm_page (l_page req) in
     let pageSize := norm_pageSize (l_pageSize req) in
     let search := norm_search (l_search req) in
     if negb (truthy_str search) then
       let page := Number_of page in
       let start := num_mul page pageSize in
       let stop := num_sub (num_add start pageSize) 1 in
       redis_connect;;
       let* roomIds :=
         redis_zrevrange index_key (Number_toString start)
           (Number_toString stop) in
       let* cachedRooms := promise_all (redis_get ∘ detail_key <$> roomIds) in
       let* repaired := repair roomIds cachedRooms in
       let rooms := parsed repaired in
       let* totalCount := redis_zcard index_key in
       let hasMore :=
         num_ltb (num_add start (Z.of_nat (length rooms))) totalCount in
       res_json 200
         (list_response rooms
            (list_metadata_of totalCount (num_json page) pageSize
               (length rooms) hasMore (js "createdAt") (js "desc")))
     else
       let* totalCount := Room_countDocuments search in
       let skip := page * pageSize in
       let* rooms := Room_find search skip pageSize in
       let hasMore := skip + Z.of_nat (length rooms) <? totalCount in
       res_json 200
         (list_response rooms
            (list_metadata totalCount page pageSize (length rooms) hasMore
               (js "createdAt") (js "desc"))))
    (fun _ =>
       note (ConsoleError (js "방 목록 조회 에러:"));;
       res_json 500 rooms_fetch_error).

(** [router.post('/')], lines 528-575 *)
Definition post_rooms (req : CreateReq) : M Response :=
  try_catch
    (let* trimmed := opt_trim (c_name req) in
     if negb (truthy trimmed) then res_json 400 name_required
     else
       let* savedRoom := Room_insert (str_of trimmed) (c_user req) (c_password req) in
       let* found := Room_findById (room_id savedRoom) in
       redis_connect;;
       match found with
       | None => throw (TypeError_null "_id")
       | Some r =>
           let* populatedRoom := read (fun w => populated_room w r) in
           redis_set (detail_key (room_id r)) (JObj populatedRoom) 3600;;
           redis_zadd index_key (room_createdAt r) (room_id r);;
           let* socket := read io in
           (if socket then
              note (Emit (js "room-list") (js "roomCreated")
                      (strip_password populatedRoom))
            else ret tt);;
           res_json 201 (created_response populatedRoom)
       end)
    (fun e =>
       note (ConsoleError (js "방 생성 에러:"));;
       res_json 500 (server_error e)).

End Split.

(** ** Joining a room

    [router.post('/:roomId/join')], the same text in both variants
    (lines 282-342 and 608-668). *)
Definition post_join (req : JoinReq) : M Response :=
  try_catch
    (let* found := Room_findById (j_roomId req) in
     match found with
     | None => res_json 404 room_not_found
     | Some room =>
         let password := default [] (j_password req) in
         let* gate :=
           if room_hasPassword room then
             if negb (truthy_str password) then ret (Some (400, password_required))
             else
               let* isPasswordValid := Room_checkPassword room password in
               if isPasswordValid then ret None
               else ret (Some (401, password_mismatch))
           else ret None in
         match gate with
         | Some (st, b) => res_json st b
         | None =>
             let* room :=
               if bool_decide (j_user req ∈ room_participants room) then ret room
               else
                 let room' :=
                   {| room_id := room_id room; room_name := room_name room;
                      room_creator := room_creator room;
                      room_participants := room_participants room ++ [j_user req];
                      room_password := room_password room;
                      room_hasPassword := room_hasPassword room;
                      room_createdAt := room_createdAt room |} in
                 Room_save room';; ret room' in
             let* participants := Room_populate_participants room in
             let populatedRoom :=
               room_obj true (JStr (room_creator room)) participants room in
             let* socket := read io in
             (if socket then
                note (Emit (j_roomId req) (js "roomUpdate")
                        (strip_password populatedRoom))
              else ret tt);;
             res_json 200 (created_response populatedRoom)
         end
     end)
    (fun e =>
       note (ConsoleError (js "방 입장 에러:"));;
       res_json 500 (server_error e)).

(** ** Reading one room

    [router.get('/:roomId')], the same text in both variants (lines 252-279
    and 578-605). *)
Definition room_fetch_error : jsval :=
  JObj [(js "success", JBool false);
        (js "message", JStr (js "채팅방 정보를 불러오는데 실패했습니다."))].

Definition get_room (roomId : jstring) : M Response :=
  try_catch
    (let* found := Room_findById roomId in
     match found with
     | None => res_json 404 room_not_found
     | Some r =>
         let* room := read (fun w => populated_room w r) in
         res_json 200 (created_response room)
     end)
    (fun _ =>
       note (ConsoleError (js "Room fetch error:"));;
       res_json 500 room_fetch_error).

(** ** The socket

    [initializeSocket] (lines 26-28 and 391-393) sets the module's [io]. *)
Definition initializeSocket : M unit :=
  modify (fun w =>
    {| env := env w; rooms := rooms w; users := users w; redis := redis w;
       io := true; now := now w; trace := trace w |}).

(** ** Filling the caches from the store

    The loop of [backend/scripts/migrateRoomsToRedis.js] (lines 17-26) over
    the documents that [Room.find({}).lean()] gave: each room goes into the
    sorted set with its creation time as score, and its document into the
    detail cache for 3600 seconds. *)
Definition raw_room (w : World) (r : Room) : jsval :=
  JObj (room_obj (password_selected (env w)) (JStr (room_creator r))
          (id_refs (room_participants r)) r).

Fixpoint migrate_rooms (rs : list Room) : M unit :=
  match rs with
  | [] => ret tt
  | room :: rest =>
      redis_zadd Split.index_key (room_createdAt room) (room_id room);;
      let* doc := read (fun w => raw_room w room) in
      redis_set (Split.detail_key (room_id room)) doc 3600;;
      migrate_rooms rest
  end.

(** ** Concrete worlds for the examples *)

Module Ex.

Definition substring_i (pattern name : jstring) : bool :=
  existsb (fun k => bool_decide (take (length pattern) (drop k name) = pattern))
    (seq 0 (S (length name))).

(** Collaborators that never fail. *)
Definition env_ok : Env :=
  {| fault := fun _ _ => None;
     regex_i := substring_i;
     objectId := fun n => js "room-" ++ String_of_Z (Z.of_nat n);
     hash := fun p => js "hashed:" ++ p;
     verify := fun p secret => bool_decide (js "hashed:" ++ p = secret);
     password_selected := false |}.

(** The cache backend is unreachable: every cache command throws. *)
Definition env_cache_down : Env :=
  {| fault := fun _ o =>
       if is_cache_op o then Some (js "connect ECONNREFUSED") else None;
     regex_i := substring_i;
     objectId := objectId env_ok;
     hash := hash env_ok;
     verify := verify env_ok;
     password_selected := false |}.

Definition alice : User :=
  {| user_id := js "u-alice"; user_name := js "alice";
     user_email := js "alice@example.com" |}.

Definition bob : User :=
  {| user_id := js "u-bob"; user_name := js "bob";
     user_email := js "bob@example.com" |}.

Definition lobby : Room :=
  {| room_id := js "room-0"; room_name := js "lobby";
     room_creator := js "u-alice"; room_participants := [js "u-alice"];
     room_password := None; room_hasPassword := false;
     room_createdAt := 1000 |}.

Definition tower : Room :=
  {| room_id := js "room-1"; room_name := js "tower";
     room_creator := js "u-bob";
     room_participants := [js "u-bob"; js "u-alice"];
     room_password := Some (js "hashed:secret"); room_hasPassword := true;
     room_createdAt := 2000 |}.

Definition world (e : Env) (cache : gmap jstring rentry) : World :=
  {| env := e; rooms := [lobby; tower]; users := [alice; bob];
     redis := cache; io := true; now := 5000; trace := [] |}.

(** A sorted index and detail cache that mirror the store, the detail of
    [room-0] missing. *)
Definition warm_cache : gmap jstring rentry :=
  <[Split.index_key := RZSet (<[js "room-0" := 1000]> {[js "room-1" := 2000]})]>
    {[Split.detail_key (js "room-1") :=
        RString (json (lean_room (world env_ok ∅) tower)) (Some 3600)]}.

Definition list_req (user : jstring) (page pageSize sortField sortOrder search
    : option jstring) : ListReq :=
  {| l_user := user; l_page := page; l_pageSize := pageSize;
     l_sortField := sortField; l_sortOrder := sortOrder; l_search := search |}.

Definition create_req (user : jstring) (name : jsval) : CreateReq :=
  {| c_user := user; c_name := name; c_password := None |}.

Definition secret_req : CreateReq :=
  {| c_user := js "u-alice"; c_name := JStr (js " den ");
     c_password := Some (js "secret") |}.

(** A store whose queries load the password by default. *)
Definition env_loading_password : Env :=
  {| fault := fun _ _ => None;
     regex_i := substring_i;
     objectId := objectId env_ok;
     hash := hash env_ok;
     verify := verify env_ok;
     password_selected := true |}.

End Ex.

(** * Vocabulary of the statements *)

(** ** Requests that are rejected *)

(** The name is missing ([undefined] or [null]) or blank after [trim]. *)
Definition blank_name (v : jsval) : Prop :=
  v = JUndefined \/ v = JNull \/ exists s, v = JStr s /\ trim s = [].

Definition bad_request : Response := {| status := 400; body := name_required |}.

(** ** Relations that every step of a run preserves

    [R] relates a world to a later one; it is [Stepwise] for [safe] when it
    is a preorder that recording a [safe] operation respects. Then
    [spec R P m] says: [m] takes a world to an [R]-related one, and a value
    it returns satisfies [P]. *)

Class Stepwise (safe : Op -> Prop) (R : World -> World -> Prop) := {
  step_refl : forall w, R w w;
  step_trans : forall w1 w2 w3, R w1 w2 -> R w2 w3 -> R w1 w3;
  step_record : forall o w, safe o -> R w (record o w);
}.

Definition spec {A} (R : World -> World -> Prop) (P : A -> Prop) (m : M A) : Prop :=
  forall w o w', m w = (o, w') ->
    R w w' /\ match o with Ok a => P a | Throw _ => True end.

(** The run only adds [safe] operations to the trace. *)
Definition extends (safe : Op -> Prop) (w w' : World) : Prop :=
  exists ops, trace w' = trace w ++ ops /\ Forall safe ops.

(** ** Records without their password *)

(** The secret is neither held by the value ([password] reads
    [undefined]) nor present in what is sent. *)
Definition password_stripped (v : jsval) : Prop :=
  get_field (js "password") v = JUndefined
  /\ has_field (js "password") v = false.

Definition emits_stripped (o : Op) : Prop :=
  match o with
  | Emit _ _ payload => password_stripped payload
  | _ => True
  end.

Definition created_stripped (r : Response) : Prop :=
  status r = 201 -> password_stripped (get_field (js "data") (body r)).

(** The two variants of a route. *)
Inductive Variant := AggregateCache | SplitCache.

Definition post_rooms_of (v : Variant) : CreateReq -> M Response :=
  match v with
  | AggregateCache => Aggregate.post_rooms
  | SplitCache => Split.post_rooms
  end.

Definition response_of (r : Outcome Response * World) : Response :=
  match r.1 with
  | Ok resp => resp
  | Throw _ => {| status := 0; body := JUndefined |}
  end.

(** ** Collaborators that answer *)

Definition store_healthy (w : World) : Prop :=
  forall n o, is_store_op o = true -> fault (env w) n o = None.

Definition cache_healthy (w : World) : Prop :=
  forall n o, is_cache_op o = true -> fault (env w) n o = None.

(** ** Joining a room again *)

(** The password gate of lines 295-309 lets the request through. *)
Definition admitted (w : World) (room : Room) (password : option jstring) : Prop :=
  room_hasPassword room = false
  \/ (truthy_str (default [] password) = true
      /\ match room_password room with
         | Some secret => verify (env w) (default [] password) secret
         | None => true
         end = true).

Definition joined_response (w : World) (room : Room) : Response :=
  {| status := 200;
     body := created_response
               (room_obj true (JStr (room_creator room))
                  (populate_participants (users w) (room_participants room))
                  room) |}.

(** ** Reading a response and a trace *)

Definition data_of (r : Response) : list jsval :=
  match get_field (js "data") (body r) with
  | JArr l => l
  | _ => []
  end.

Definition names_of (r : Response) : list jstring :=
  (fun x => str_of (get_field (js "name") x)) <$> data_of r.

Definition metadata_of (k : string) (r : Response) : jsval :=
  get_field (js k) (get_field (js "metadata") (body r)).

Definition sort_of (r : Response) : jsval * jsval :=
  (get_field (js "field") (metadata_of "sort" r),
   get_field (js "order") (metadata_of "sort" r)).

(** The creator of each listed room and its [isCreator] flag. *)
Definition creator_flags (r : Response) : list (jstring * jsval) :=
  (fun x => (str_of (get_field (js "_id") (get_field (js "creator") x)),
             get_field (js "isCreator") x)) <$> data_of r.

(** What a run of a handler recorded. *)
Definition calls_of {A} (m : M A) (w : World) : list Op :=
  drop (length (trace w)) (trace (m w).2).

(** The command reads, writes or enumerates keys of the aggregate query
    cache, those under [chat:rooms:list:]. *)
Definition list_key (k : jstring) : bool :=
  bool_decide (take 16 k = js "chat:rooms:list:").

Definition touches_aggregate (o : Op) : bool :=
  match o with
  | RedisGet k | RedisSet k _ _ => list_key k
  | RedisDel ks => existsb list_key ks
  | RedisScan _ => true
  | _ => false
  end.

Definition touches_index (o : Op) : bool :=
  match o with
  | RedisZRevRange _ _ _ | RedisZAdd _ _ _ | RedisZCard _ => true
  | _ => false
  end.

(** The run leaves the cache entries under the keys in [K] as they were. *)
Definition keeps (K : jstring -> Prop) (w w' : World) : Prop :=
  forall k, K k -> redis w' !! k = redis w !! k.

(** ** The listing of the aggregate-cache variant, in closed form *)

Definition signature (req : ListReq) : jstring :=
  Aggregate.cacheKey (norm_page (l_page req)) (norm_pageSize (l_pageSize req))
    (norm_sortField (l_sortField req)) (norm_sortOrder (l_sortOrder req))
    (norm_search (l_search req)).

(** The page that the store gives for a request: filter, sort by the
    requested field and order, skip [page * pageSize], limit [pageSize]. *)
Definition fresh_page (req : ListReq) (w : World) : jsval :=
  let page := norm_page (l_page req) in
  let pageSize := norm_pageSize (l_pageSize req) in
  let sortField := norm_sortField (l_sortField req) in
  let sortOrder := norm_sortOrder (l_sortOrder req) in
  let search := norm_search (l_search req) in
  let matching := List.filter (matches (env w) search) (rooms w) in
  let totalCount := Z.of_nat (length matching) in
  let found :=
    skip_limit (page * pageSize) pageSize
      (mongo_sort sortField (bool_decide (sortOrder = js "desc")) matching) in
  let safeRooms :=
    Aggregate.safeRoom (l_user req) (now w) <$> (project_room (users w) <$> found) in
  list_response safeRooms
    (list_metadata totalCount page pageSize (length safeRooms)
       (page * pageSize + Z.of_nat (length (project_room (users w) <$> found))
        <? totalCount)
       sortField sortOrder).

(** The page that the cache gives: the lookup did not fail, and the key
    holds a truthy value. *)
Definition cached_page (req : ListReq) (w : World) : option jsval :=
  match fault (env w) (length (trace w)) (RedisGet (signature req)),
        redis w !! signature req with
  | None, Some (RString v _) => if truthy v then Some v else None
  | _, _ => None
  end.

(** ** The default listing of the split-cache variant, in closed form *)

(** The world with further operations recorded. *)
Definition records (ops : list Op) (w : World) : World :=
  {| env := env w; rooms := rooms w; users := users w; redis := redis w;
     io := io w; now := now w; trace := trace w ++ ops |}.

(** Every collaborator answers. *)
Definition healthy (w : World) : Prop := forall n o, fault (env w) n o = None.

(** The index key holds a sorted set if anything, the detail keys hold
    serialised values if anything. *)
Definition well_typed (r : gmap jstring rentry) : Prop :=
  (forall v ttl, r !! Split.index_key <> Some (RString v ttl))
  /\ (forall id m, r !! Split.detail_key id <> Some (RZSet m)).

(** The sorted index as a map from room id to creation time. *)
Definition index_of (r : gmap jstring rentry) : gmap jstring Z :=
  match r !! Split.index_key with
  | Some (RZSet m) => m
  | _ => ∅
  end.

(** What the detail cache holds for a room. *)
Definition cached_detail (r : gmap jstring rentry) (id : jstring) : option jsval :=
  match r !! Split.detail_key id with
  | Some (RString v _) => Some v
  | _ => None
  end.

(** The snapshot that a repair writes back. *)
Definition snapshot (w : World) (d : Room) : jsval := json (lean_room w d).

Section Repair.
(** The detail cache when the page was looked up, the rooms of the store
    and the snapshot it gives of a room. *)
Variables (r : gmap jstring rentry) (rs : list Room) (snap : Room -> jsval).

(** The calls that the repair of one identifier makes: none on a hit, a
    store read on a miss, and a write to the detail cache for 3600
    seconds when the store has the room. *)
Definition repair_calls (id : jstring) : list Op :=
  match cached_detail r id with
  | Some _ => []
  | None =>
      match find_room rs id with
      | Some d => [MongoFindById id;
                   RedisSet (Split.detail_key id) (snap d) 3600]
      | None => [MongoFindById id]
      end
  end.

(** The entry of the page for one identifier: the cached snapshot, else
    the one fetched from the store, else nothing. *)
Definition repaired_detail (id : jstring) : option jsval :=
  match cached_detail r id with
  | Some v => Some v
  | None => snap <$> find_room rs id
  end.

(** The cache after the repairs of a list of identifiers. *)
Fixpoint written_back (ids : list jstring) (cache : gmap jstring rentry)
  : gmap jstring rentry :=
  match ids with
  | [] => cache
  | id :: ids' =>
      written_back ids'
        match cached_detail r id, find_room rs id with
        | None, Some d =>
            <[Split.detail_key id := RString (snap d) (Some 3600)]> cache
        | _, _ => cache
        end
  end.
End Repair.

(** The ranks of the requested page are integers that a double holds:
    [page * pageSize + pageSize], the largest number the handler forms, is
    at most 2^53. *)
Definition exact_ranks (req : ListReq) : Prop :=
  norm_page (l_page req) * norm_pageSize (l_pageSize req)
  + norm_pageSize (l_pageSize req) <= 2 ^ 53.

(** A creator as the store populates it: identifier, name and email of the
    user, [null] when the user is gone. *)
Definition populated_creator (users : list User) (d : Room) : jsval :=
  match find_user users (room_creator d) with
  | Some u => JObj [(js "_id", JStr (user_id u));
                    (js "name", JStr (user_name u));
                    (js "email", JStr (user_email u))]
  | None => JNull
  end.

(** The populated record of a room as it is written to the detail cache:
    its own fields, the creator as the store populates it, the
    participants as identifiers, and the stored secret when the query
    selects it. *)
Definition populated_record (w : World) (d : Room) : jsval :=
  JObj ([(js "_id", JStr (room_id d)); (js "name", JStr (room_name d));
         (js "creator", populated_creator (users w) d);
         (js "participants", JArr (JStr <$> room_participants d));
         (js "hasPassword", JBool (room_hasPassword d));
         (js "createdAt", JNum (room_createdAt d))]
        ++ match room_password d with
           | Some secret =>
               if password_selected (env w) then [(js "password", JStr secret)]
               else []
           | None => []
           end).

(** The response of the default listing, from the index and the details. *)
Definition index_page (req : ListReq) (w : World) : jsval :=
  let page := norm_page (l_page req) in
  let pageSize := norm_pageSize (l_pageSize req) in
  let start := page * pageSize in
  let roomIds := zrevrange (index_of (redis w)) start (start + pageSize - 1) in
  let rooms :=
    Split.parsed (repaired_detail (redis w) (rooms w) (snapshot w) <$> roomIds) in
  let totalCount := Z.of_nat (size (index_of (redis w))) in
  list_response rooms
    (list_metadata totalCount page pageSize (length rooms)
       (start + Z.of_nat (length rooms) <? totalCount)
       (js "createdAt") (js "desc")).

(** The identifiers of the requested page, as the sorted index gives
    them. *)
Definition window (req : ListReq) (w : World) : list jstring :=
  let start := norm_page (l_page req) * norm_pageSize (l_pageSize req) in
  zrevrange (index_of (redis w)) start (start + norm_pageSize (l_pageSize req) - 1).

(** The calls of the default listing, in order: connect, read the rank
    window from the index, look every identifier up in the detail cache,
    repair the misses, read the cardinality of the index. *)
Definition index_calls (req : ListReq) (w : World) : list Op :=
  let start := norm_page (l_page req) * norm_pageSize (l_pageSize req) in
  [RedisConnect;
   RedisZRevRange Split.index_key (String_of_Z start)
     (String_of_Z (start + norm_pageSize (l_pageSize req) - 1))]
  ++ (RedisGet ∘ Split.detail_key <$> window req w)
  ++ (window req w ≫= repair_calls (redis w) (rooms w) (snapshot w))
  ++ [RedisZCard Split.index_key].

(** ** Numerals *)

(** The characters of a string are decimal digits. *)
Definition all_digits (s : jstring) : Prop :=
  Forall (fun c => (48 <= c <= 57)%N) s.

(** The value of a numeral read from the left, after the digits already
    read gave [acc]. *)
Fixpoint uint_value (acc : Z) (d : Decimal.uint) : Z :=
  match d with
  | Decimal.Nil => acc
  | Decimal.D0 r => uint_value (acc * 10 + 0) r
  | Decimal.D1 r => uint_value (acc * 10 + 1) r
  | Decimal.D2 r => uint_value (acc * 10 + 2) r
  | Decimal.D3 r => uint_value (acc * 10 + 3) r
  | Decimal.D4 r => uint_value (acc * 10 + 4) r
  | Decimal.D5 r => uint_value (acc * 10 + 5) r
  | Decimal.D6 r => uint_value (acc * 10 + 6) r
  | Decimal.D7 r => uint_value (acc * 10 + 7) r
  | Decimal.D8 r => uint_value (acc * 10 + 8) r
  | Decimal.D9 r => uint_value (acc * 10 + 9) r
  end.

(** The string has no colon. *)
Definition colon_free (s : jstring) : Prop := 58%N ∉ s.

(** ** Further concrete worlds *)

Module Ex2.

(** The store is unreachable: every store call throws. *)
Definition env_store_down : Env :=
  {| fault := fun _ o =>
       if is_store_op o then Some (js "MongoNetworkError") else None;
     regex_i := Ex.substring_i;
     objectId := objectId Ex.env_ok;
     hash := hash Ex.env_ok;
     verify := verify Ex.env_ok;
     password_selected := false |}.

Definition default_req (user : string) : ListReq :=
  Ex.list_req (js user) None None None None None.

Definition by_name_req (user : string) : ListReq :=
  Ex.list_req (js user) None None (Some (js "name")) (Some (js "asc")) None.

Definition search_req (user : string) (term : string) : ListReq :=
  Ex.list_req (js user) None None None None (Some (js term)).

Definition join_req (user room : string) (password : option jstring) : JoinReq :=
  {| j_user := js user; j_roomId := js room; j_password := password |}.

End Ex2.

(** The detail cache holds an object for a room. *)
Definition detail_object (r : gmap jstring rentry) (id : jstring) : Prop :=
  exists fs, cached_detail r id = Some (JObj fs).

(** The operation changes neither the store nor what the sockets hear. *)
Definition silent (o : Op) : Prop :=
  is_store_write o = false
  /\ match o with Emit _ _ _ => False | _ => True end.

(** The calls of a listing of the aggregate-cache variant that misses. *)
Definition miss_calls (req : ListReq) (w : World) : list Op :=
  [RedisGet (signature req);
   MongoCount (norm_search (l_search req));
   MongoAggregate (norm_search (l_search req))
     (norm_sortField (l_sortField req)) (norm_sortOrder (l_sortOrder req))
     (norm_page (l_page req) * norm_pageSize (l_pageSize req))
     (norm_pageSize (l_pageSize req));
   RedisSet (signature req) (json (fresh_page req w)) 60].

(** * Proofs *)

(** ** Parameter normalisation *)

Lemma norm_pageSize_bounds q : 1 <= norm_pageSize q <= 50.
Proof. unfold norm_pageSize. lia. Qed.

Lemma norm_page_nonneg q : 0 <= norm_page q.
Proof. unfold norm_page. lia. Qed.

Lemma num_or_spec x d :
  num_or x d = match x with
               | Some n => if decide (n = 0) then d else n
               | None => d
               end.
Proof. destruct x as [[| |]|]; reflexivity. Qed.



(** ** Validation of the room name *)

(** C8: a creation request whose name is missing or blank after trimming is
    answered 400 by both variants, and the world after the request is the
    world before it: no store or cache call was made (the trace has not
    grown) and the store, the sorted index and the caches are as they
    were. *)
Theorem C8_blank_name_rejected (req : CreateReq) (w : World) :
  blank_name (c_name req) ->
  Aggregate.post_rooms req w = (Ok bad_request, w)
  /\ Split.post_rooms req w = (Ok bad_request, w).
Proof.
  intros [H | [H | (s & H & Hs)]];
    unfold Aggregate.post_rooms, Split.post_rooms, try_catch, bind, opt_trim;
    rewrite H; simpl; rewrite ?Hs; split; reflexivity.
Qed.

Lemma C8_blank_name_rejected_witness :
  blank_name (JStr (js "   "))
  /\ Aggregate.post_rooms (Ex.create_req (js "u-alice") (JStr (js "   ")))
       (Ex.world Ex.env_ok ∅)
     = (Ok bad_request, Ex.world Ex.env_ok ∅)
  /\ Split.post_rooms (Ex.create_req (js "u-alice") (JStr (js "   ")))
       (Ex.world Ex.env_ok ∅)
     = (Ok bad_request, Ex.world Ex.env_ok ∅).
Proof.
  assert (H : blank_name (JStr (js "   "))).
  { right; right. exists (js "   "). split; reflexivity. }
  split; [exact H|].
  exact (C8_blank_name_rejected
           (Ex.create_req (js "u-alice") (JStr (js "   ")))
           (Ex.world Ex.env_ok ∅) H).
Defined.

(** ** Rules for [spec] *)

Section Spec.
Context {safe : Op -> Prop} {R : World -> World -> Prop} `{!Stepwise safe R}.

Lemma spec_ret {A} (P : A -> Prop) a : P a -> spec R P (ret a).
Proof. intros H w o w' [= <- <-]. split; [apply step_refl | done]. Qed.

Lemma spec_throw {A} (P : A -> Prop) e : spec R P (throw e).
Proof. intros w o w' [= <- <-]. split; [apply step_refl | done]. Qed.

Lemma spec_bind {A B} (P : A -> Prop) (Q : B -> Prop) m k :
  spec R P m -> (forall a, P a -> spec R Q (k a)) -> spec R Q (bind m k).
Proof.
  intros Hm Hk w o w'. unfold bind.
  destruct (m w) as [[a|e] w1] eqn:E; destruct (Hm _ _ _ E) as [X Pa].
  - intros E'. destruct (Hk _ Pa _ _ _ E') as [Y Qo].
    split; [by eapply step_trans | done].
  - intros [= <- <-]. done.
Qed.

Lemma spec_bind_ret {A B} (P : B -> Prop) (a : A) k :
  spec R P (k a) -> spec R P (bind (ret a) k).
Proof. intros H w o w' E. exact (H w o w' E). Qed.

Lemma spec_try_catch {A} (P : A -> Prop) m h :
  spec R P m -> (forall e, spec R P (h e)) -> spec R P (try_catch m h).
Proof.
  intros Hm Hh w o w'. unfold try_catch.
  destruct (m w) as [[a|e] w1] eqn:E; destruct (Hm _ _ _ E) as [X Pa].
  - intros [= <- <-]. done.
  - intros E'. destruct (Hh e _ _ _ E') as [Y Po].
    split; [by eapply step_trans | done].
Qed.

Lemma spec_weaken {A} (P Q : A -> Prop) m :
  spec R P m -> (forall a, P a -> Q a) -> spec R Q m.
Proof.
  intros Hm HPQ w o w' E. destruct (Hm _ _ _ E) as [X Po].
  split; [done|]. destruct o; auto.
Qed.

Lemma spec_call {A} (P : A -> Prop) o eff :
  safe o -> spec R P eff -> spec R P (call o eff).
Proof.
  intros Ho He w r w'. unfold call.
  destruct (fault _ _ _).
  - intros [= <- <-]. split; [by apply step_record | done].
  - intros E. destruct (He _ _ _ E) as [X Pr].
    split; [|done]. eapply step_trans; [by apply step_record | done].
Qed.

Lemma spec_note o : safe o -> spec R (fun _ => True) (note o).
Proof. intros Ho w r w' [= <- <-]. split; [by apply step_record | done]. Qed.

Lemma spec_read {A} (P : A -> Prop) (f : World -> A) :
  (forall w, P (f w)) -> spec R P (read f).
Proof. intros H w o w' [= <- <-]. split; [apply step_refl | apply H]. Qed.

Lemma spec_read_ex {A} (f : World -> A) :
  spec R (fun a => exists w, a = f w) (read f).
Proof. by apply spec_read; eauto. Qed.

Lemma spec_modify f :
  (forall w, R w (f w)) -> spec R (fun _ => True) (modify f).
Proof. intros H w o w' [= <- <-]. split; [apply H | done]. Qed.
End Spec.

#[export] Instance extends_stepwise safe : Stepwise safe (extends safe).
Proof.
  split.
  - intros w. exists []. split; [by rewrite app_nil_r | constructor].
  - intros w1 w2 w3 (o1 & H1 & F1) (o2 & H2 & F2). exists (o1 ++ o2). split.
    + by rewrite H2, H1, app_assoc.
    + by apply Forall_app.
  - intros o w H. exists [o]. split; [reflexivity | by repeat constructor].
Qed.

Lemma extends_state safe (f : World -> World) :
  (forall w, trace (f w) = trace w) -> forall w, extends safe w (f w).
Proof. intros H w. exists []. split; [by rewrite H, app_nil_r | constructor]. Qed.

Create HintDb prims.
#[local] Hint Unfold redis_connect redis_get redis_set redis_del redis_scan
  redis_zrevrange redis_zcard redis_zadd Room_countDocuments Room_aggregate
  Room_find Room_findById Room_insert Room_save Room_populate_participants
  Room_checkPassword Aggregate.redisClient_get Aggregate.redisClient_set
  Aggregate.redisClient_del res_json opt_trim : prims.

(** One step of a proof of [spec]: follow the shape of the computation.
    A value that was read is replaced by what it was read from. *)
Ltac spec_step :=
  match goal with
  | |- spec _ _ (bind (match ?x with _ => _ end) _) => destruct x
  | |- spec _ _ (bind (if ?x then _ else _) _) => destruct x
  | |- spec _ _ (bind (ret _) _) => apply spec_bind_ret
  | |- spec _ _ (bind (read _) _) =>
      eapply spec_bind; [apply spec_read_ex | intros ? [? ->]]
  | |- spec _ _ (bind _ _) =>
      eapply (spec_bind (fun _ => True)); [|intros ? _]
  | |- spec _ _ (match ?x with _ => _ end) => destruct x
  | |- spec _ _ (if ?x then _ else _) => destruct x
  | |- spec _ _ (ret _) => apply spec_ret
  | |- spec _ _ (throw _) => apply spec_throw
  | |- spec _ _ (note _) => apply spec_note
  | |- spec _ _ (call _ _) => apply spec_call
  | |- spec _ _ (modify _) => apply spec_modify; try (by apply extends_state)
  | |- spec _ _ (try_catch _ _) => apply spec_try_catch; [|intros ?]
  | |- spec _ _ (read _) => apply spec_read; intros ?
  | |- spec _ _ _ => progress autounfold with prims
  end.

Ltac spec_auto := repeat (spec_step; try done).

(** ** The created room leaves without its password *)

Lemma json_props_cons k v r :
  json_props ((k, v) :: r) =
  match v with
  | JUndefined => json_props r
  | _ => (k, json v) :: json_props r
  end.
Proof. destruct v; reflexivity. Qed.

Lemma has_field_obj k fs :
  has_field k (JObj fs) = bool_decide (is_Some (field_lookup k (json_props fs))).
Proof. reflexivity. Qed.

Lemma field_lookup_json_props_None k fs :
  k ∉ fs.*1 -> field_lookup k (json_props fs) = None.
Proof.
  induction fs as [|[k' v] r IH]; intros Hk; [reflexivity|].
  rewrite fmap_cons, not_elem_of_cons in Hk. destruct Hk as [Hne Hk].
  rewrite json_props_cons.
  destruct v; simpl; rewrite ?decide_False by done; auto.
Qed.

Lemma field_lookup_set_field k v fs :
  field_lookup k (set_field k v fs) = Some v.
Proof.
  induction fs as [|[k' v'] r IH]; simpl.
  - by rewrite decide_True.
  - destruct (decide (k' = k)); simpl.
    + by rewrite decide_True.
    + by rewrite decide_False.
Qed.

(** An object has each property once; then setting a property to
    [undefined] removes it from what is serialised. *)
Lemma set_undefined_not_serialised k fs :
  NoDup fs.*1 ->
  field_lookup k (json_props (set_field k JUndefined fs)) = None.
Proof.
  induction fs as [|[k' v'] r IH]; intros Hnd; [reflexivity|].
  rewrite fmap_cons, NoDup_cons in Hnd. destruct Hnd as [Hk' Hnd].
  simpl. destruct (decide (k' = k)) as [->|Hne].
  - rewrite json_props_cons. by apply field_lookup_json_props_None.
  - rewrite json_props_cons.
    destruct v'; simpl; rewrite ?decide_False by done; auto.
Qed.

Lemma strip_password_stripped fs :
  NoDup fs.*1 -> password_stripped (strip_password fs).
Proof.
  intros Hnd. unfold password_stripped, strip_password. split.
  - unfold get_field. by rewrite field_lookup_set_field.
  - rewrite has_field_obj, set_undefined_not_serialised by done.
    apply bool_decide_eq_false. by intros [? ?].
Qed.

Lemma room_obj_NoDup b creator participants r :
  NoDup (room_obj b creator participants r).*1.
Proof.
  unfold room_obj. destruct (room_password r), b; simpl;
    apply (bool_decide_unpack _); vm_compute; reflexivity.
Qed.

Lemma created_response_stripped w r :
  created_stripped {| status := 201; body := created_response (populated_room w r) |}.
Proof. intros _. apply strip_password_stripped, room_obj_NoDup. Qed.

Lemma Aggregate_post_rooms_stripped req :
  spec (extends emits_stripped) created_stripped (Aggregate.post_rooms req).
Proof.
  unfold Aggregate.post_rooms. spec_auto.
  all: first [ exact (created_response_stripped _ _)
             | apply strip_password_stripped, room_obj_NoDup ].
Qed.

Lemma Split_post_rooms_stripped req :
  spec (extends emits_stripped) created_stripped (Split.post_rooms req).
Proof.
  unfold Split.post_rooms. spec_auto.
  all: first [ exact (created_response_stripped _ _)
             | apply strip_password_stripped, room_obj_NoDup ].
Qed.

(** C9: in both variants, when a creation request is answered 201, the
    record in the response body has no password (the property reads
    [undefined] and is absent from what is serialised), and the same holds
    for the payload of every event the request emitted. *)
Theorem C9_created_without_password (v : Variant) (req : CreateReq)
    (w w' : World) (resp : Response) :
  post_rooms_of v req w = (Ok resp, w') ->
  status resp = 201 ->
  password_stripped (get_field (js "data") (body resp))
  /\ exists ops, trace w' = trace w ++ ops /\ Forall emits_stripped ops.
Proof.
  intros E H201.
  assert (S : spec (extends emits_stripped) created_stripped (post_rooms_of v req)).
  { destruct v; [apply Aggregate_post_rooms_stripped | apply Split_post_rooms_stripped]. }
  destruct (S _ _ _ E) as [X P]. split; [exact (P H201) | exact X].
Qed.

Lemma C9_created_without_password_witness :
  let run := Split.post_rooms Ex.secret_req (Ex.world Ex.env_loading_password ∅) in
  status (response_of run) = 201
  /\ last (trace run.2)
     = Some (Emit (js "room-list") (js "roomCreated")
               (get_field (js "data") (body (response_of run))))
  /\ password_stripped (get_field (js "data") (body (response_of run)))
  /\ exists ops, trace run.2 = [] ++ ops /\ Forall emits_stripped ops.
Proof.
  intros run.
  assert (E : post_rooms_of SplitCache Ex.secret_req (Ex.world Ex.env_loading_password ∅)
              = (Ok (response_of run), run.2)) by (vm_compute; reflexivity).
  assert (H201 : status (response_of run) = 201) by (vm_compute; reflexivity).
  split; [exact H201|]. split; [vm_compute; reflexivity|].
  exact (C9_created_without_password SplitCache Ex.secret_req
           (Ex.world Ex.env_loading_password ∅) run.2 (response_of run) E H201).
Defined.

(** ** Joining a room again *)

Lemma call_ok {A} o (eff : M A) w :
  fault (env w) (length (trace w)) o = None -> call o eff w = eff (record o w).
Proof. intros H. unfold call. by rewrite H. Qed.

(** C10, as stated, fails on a protected room: a participant who joins
    again without the password is answered 400, not the success
    response. *)
Lemma C10_member_without_password_rejected :
  let req := {| j_user := js "u-alice"; j_roomId := js "room-1";
                j_password := None |} in
  find_room (rooms (Ex.world Ex.env_ok ∅)) (j_roomId req) = Some Ex.tower
  /\ j_user req ∈ room_participants Ex.tower
  /\ (post_join req (Ex.world Ex.env_ok ∅)).1
     = Ok {| status := 400; body := password_required |}.
Proof.
  split; [reflexivity|]. split; [|reflexivity].
  apply (bool_decide_unpack _). vm_compute. reflexivity.
Qed.

Ltac destruct_fault :=
  match goal with
  | |- context [fault ?e ?n ?o] => destruct (fault e n o) eqn:?
  end.

(** Unfold a handler down to a function of the world. *)
Ltac run_monad :=
  repeat autounfold with prims;
  unfold try_catch, bind, call, read, modify, ret, note, throw;
  cbv beta.

(** Calls that a hypothesis [H] of health lets through. *)
Ltac healthy_calls H :=
  repeat match goal with
         | |- context [fault ?e ?n ?o] => rewrite (H n o) by reflexivity; simpl
         end.

(** The trace after a run is the trace before it and the calls made. *)
Ltac solve_trace :=
  eexists; rewrite <- ?app_assoc; split; [reflexivity|];
  simpl; by repeat constructor.

Lemma join_member_no_write (req : JoinReq) (w : World) (room : Room) :
  find_room (rooms w) (j_roomId req) = Some room ->
  j_user req ∈ room_participants room ->
  rooms (post_join req w).2 = rooms w
  /\ exists ops, trace (post_join req w).2 = trace w ++ ops
       /\ Forall (fun o => is_store_write o = false) ops.
Proof.
  intros Hfind Hmem.
  unfold post_join, try_catch, bind, Room_findById, Room_checkPassword,
    Room_populate_participants, res_json, call, read, ret, note.
  destruct_fault; simpl; [split; [done | solve_trace]|].
  rewrite Hfind, (bool_decide_eq_true_2 _ Hmem).
  destruct (room_hasPassword room); simpl;
    [destruct (truthy_str (default [] (j_password req))); simpl;
       [|split; [done | solve_trace]];
     destruct_fault; simpl; [split; [done | solve_trace]|];
     destruct (match room_password room with Some _ => _ | None => _ end);
       simpl; [|split; [done | solve_trace]] |];
    (destruct_fault; simpl; [split; [done | solve_trace]|]);
    destruct (io w); simpl; (split; [done | solve_trace]).
Qed.

Lemma join_member_admitted (req : JoinReq) (w : World) (room : Room) :
  find_room (rooms w) (j_roomId req) = Some room ->
  j_user req ∈ room_participants room ->
  store_healthy w ->
  admitted w room (j_password req) ->
  (post_join req w).1 = Ok (joined_response w room).
Proof.
  intros Hfind Hmem Hs Hadm.
  unfold post_join, try_catch, bind, Room_findById, Room_checkPassword,
    Room_populate_participants, res_json, call, read, ret, note.
  rewrite Hs by reflexivity. simpl.
  rewrite Hfind, (bool_decide_eq_true_2 _ Hmem).
  destruct Hadm as [-> | [Hpw Hv]]; simpl.
  - rewrite Hs by reflexivity. simpl. by destruct (io w).
  - destruct (room_hasPassword room); simpl.
    + rewrite Hpw. simpl. rewrite Hs by reflexivity. simpl. rewrite Hv. simpl.
      rewrite Hs by reflexivity. simpl. by destruct (io w).
    + rewrite Hs by reflexivity. simpl. by destruct (io w).
Qed.

(** C10 (amended): when a participant of an existing room joins it again,
    the stored rooms, and so the participant set, are unchanged and the
    request makes no store write, whatever the outcome; and when the
    password gate admits the request (the room has no password, or the
    password sent verifies) and the store calls succeed, the answer is the
    success response carrying the room with its participants as they
    were. *)
Theorem C10_join_member_idempotent (req : JoinReq) (w : World) (room : Room) :
  find_room (rooms w) (j_roomId req) = Some room ->
  j_user req ∈ room_participants room ->
  rooms (post_join req w).2 = rooms w
  /\ (exists ops, trace (post_join req w).2 = trace w ++ ops
        /\ Forall (fun o => is_store_write o = false) ops)
  /\ (store_healthy w -> admitted w room (j_password req) ->
      (post_join req w).1 = Ok (joined_response w room)).
Proof.
  intros Hfind Hmem.
  destruct (join_member_no_write req w room Hfind Hmem) as [Hr Ht].
  split; [exact Hr|]. split; [exact Ht|].
  by apply join_member_admitted.
Qed.

Lemma C10_join_member_idempotent_witness :
  let req := {| j_user := js "u-alice"; j_roomId := js "room-1";
                j_password := Some (js "secret") |} in
  let w := Ex.world Ex.env_ok ∅ in
  find_room (rooms w) (j_roomId req) = Some Ex.tower
  /\ j_user req ∈ room_participants Ex.tower
  /\ store_healthy w
  /\ admitted w Ex.tower (j_password req)
  /\ rooms (post_join req w).2 = rooms w
  /\ (post_join req w).1 = Ok (joined_response w Ex.tower).
Proof.
  intros req w.
  assert (Hfind : find_room (rooms w) (j_roomId req) = Some Ex.tower)
    by reflexivity.
  assert (Hmem : j_user req ∈ room_participants Ex.tower)
    by (apply (bool_decide_unpack _); vm_compute; reflexivity).
  assert (Hs : store_healthy w) by (intros n o _; reflexivity).
  assert (Hadm : admitted w Ex.tower (j_password req))
    by (right; split; vm_compute; reflexivity).
  destruct (C10_join_member_idempotent req w Ex.tower Hfind Hmem)
    as (Hr & _ & Hok).
  exact (conj Hfind (conj Hmem (conj Hs (conj Hadm (conj Hr (Hok Hs Hadm)))))).
Defined.

(** ** Invalidation on creation *)

#[export] Instance keeps_stepwise K : Stepwise (fun _ => True) (keeps K).
Proof.
  split.
  - by intros w k _.
  - intros w1 w2 w3 H1 H2 k Hk. by rewrite H2, H1.
  - by intros o w _ k _.
Qed.

(** Creation in the aggregate-cache variant removes one key at most, the
    page 0 of size 10 in the default order with no search term; every
    other cached page stays. *)
Lemma Aggregate_post_rooms_keeps (req : CreateReq) :
  spec (keeps (fun k => k <> Aggregate.representative_key)) (fun _ => True)
    (Aggregate.post_rooms req).
Proof.
  unfold Aggregate.post_rooms. spec_auto.
  all: intros w k Hk; simpl; by rewrite lookup_delete_ne.
Qed.

Lemma detail_key_not_list_key id : list_key (Split.detail_key id) = false.
Proof.
  apply bool_decide_eq_false. intros H. vm_compute in H. discriminate H.
Qed.

Lemma index_key_not_list_key : list_key Split.index_key = false.
Proof. reflexivity. Qed.

Lemma list_key_ne k k' : list_key k -> list_key k' = false -> k' <> k.
Proof. intros Hk Hk' ->. rewrite Hk' in Hk. done. Qed.

(** Creation in the split-cache variant removes no cache entry at all. *)
Lemma Split_post_rooms_keeps (req : CreateReq) :
  spec (keeps list_key) (fun _ => True) (Split.post_rooms req).
Proof.
  unfold Split.post_rooms. spec_auto.
  all: intros w k Hk; simpl; rewrite lookup_insert_ne; [done|];
    apply (list_key_ne _ _ Hk);
    first [apply detail_key_not_list_key | apply index_key_not_list_key].
Qed.

Lemma glob_star_all s :
  (fix star (s : jstring) : bool :=
     glob [] s || match s with _ :: s' => star s' | [] => false end) s = true.
Proof. induction s as [|c s IH]; [reflexivity | exact IH]. Qed.

Lemma default_pattern_matches k :
  list_key k -> glob Split.default_pattern k = true.
Proof.
  unfold list_key. intros H. apply bool_decide_unpack in H.
  do 16 (destruct k as [|? k]; [discriminate H|]).
  vm_compute in H. injection H as -> -> -> -> -> -> -> -> -> -> -> -> -> -> -> ->.
  apply (glob_star_all k).
Qed.

(** The helper that no handler calls does what the invalidation needs: with
    the cache reachable, no key under [chat:rooms:list:] is left. *)
Lemma deleteRoomListCacheByPattern_clears (w : World) (k : jstring) :
  cache_healthy w ->
  list_key k ->
  redis (Split.deleteRoomListCacheByPattern Split.default_pattern w).2 !! k = None.
Proof.
  intros Hc Hk.
  unfold Split.deleteRoomListCacheByPattern, try_catch, bind, redis_connect,
    redis_scan, redis_del, call, read, modify, ret, note.
  rewrite Hc by reflexivity. simpl. rewrite Hc by reflexivity. simpl.
  set (keys := filter _ _).
  assert (Hin : redis w !! k = None \/ k ∈ keys).
  { destruct (redis w !! k) as [v|] eqn:E; [right | by left].
    apply list_elem_of_filter. split.
    - apply Is_true_true_2, default_pattern_matches, Hk.
    - apply list_elem_of_fmap. exists (k, v). split; [done|].
      by apply elem_of_map_to_list. }
  clearbody keys.
  destruct (0 <? Z.of_nat (length keys)) eqn:El; simpl.
  - rewrite Hc by reflexivity. simpl.
    destruct (decide (k ∈ keys)).
    + by apply lookup_foldr_delete.
    + rewrite lookup_foldr_delete_not_elem_of by done. by destruct Hin.
  - destruct Hin as [?|Hin]; [done|].
    destruct keys as [|k' keys]; [by apply elem_of_nil in Hin|].
    apply Z.ltb_ge in El. simpl length in El. lia.
Qed.

(** C1, on the code: in the aggregate-cache variant a page cached for the
    signature (page 0, size 10, name, asc, no search) survives a successful
    creation. The next request for that signature reads the cache and
    nothing else, and is answered the page computed before the creation,
    total 2, while the store holds 3 rooms. *)
Theorem C1_stale_page_survives_creation :
  let listing := Ex.list_req (js "u-alice") None None (Some (js "name"))
                   (Some (js "asc")) None in
  let creation := Ex.create_req (js "u-bob") (JStr (js "den")) in
  let key := Aggregate.cacheKey 0 10 (js "name") (js "asc") [] in
  let w0 := Ex.world Ex.env_ok ∅ in
  let first := Aggregate.get_rooms listing w0 in
  let created := Aggregate.post_rooms creation first.2 in
  let again := Aggregate.get_rooms listing created.2 in
  status (response_of created) = 201
  /\ length (rooms created.2) = 3%nat
  /\ list_key key = true
  /\ redis created.2 !! key = Some (RString (body (response_of first)) (Some 60))
  /\ calls_of (Aggregate.get_rooms listing) created.2 = [RedisGet key]
  /\ again.1 = first.1
  /\ metadata_of "total" (response_of again) = JNum 2
  /\ names_of (response_of again) = [js "lobby"; js "tower"].
Proof. vm_compute. repeat split; reflexivity. Qed.

(** ** Cache failures *)

(** With a store that answers, the listing always succeeds: a cached page
    is returned as it is, and otherwise, also when the lookup or the
    write-back fails, the page is computed from the store. *)
Lemma Aggregate_get_rooms_served (req : ListReq) (w : World) :
  store_healthy w ->
  (Aggregate.get_rooms req w).1
  = Ok {| status := 200;
          body := default (fresh_page req w) (cached_page req w) |}.
Proof.
  intros Hs.
  unfold Aggregate.get_rooms, cached_page, fresh_page, signature.
  set (key := Aggregate.cacheKey _ _ _ _ _).
  run_monad.
  destruct (fault (env w) (length (trace w)) (RedisGet key)) eqn:Eg; simpl.
  - healthy_calls Hs. by destruct (fault _ _ (RedisSet _ _ _)).
  - destruct (redis w !! key) as [[v ttl|m]|] eqn:Ek; simpl;
      [destruct (truthy v); simpl; [done|] | |];
      healthy_calls Hs; by destruct (fault _ _ (RedisSet _ _ _)).
Qed.

Lemma find_room_app_new rs r : is_Some (find_room (rs ++ [r]) (room_id r)).
Proof.
  unfold find_room. induction rs as [|x rs IH]; simpl.
  - rewrite bool_decide_eq_true_2 by done. eauto.
  - destruct (bool_decide (room_id x = room_id r)); eauto.
Qed.

(** Creation in the aggregate-cache variant does not depend on the cache:
    with a store that answers and a name that is not blank, the answer is
    201 whether the invalidation fails or not. *)
Lemma Aggregate_post_rooms_created (req : CreateReq) (w : World) (s : jstring) :
  store_healthy w ->
  c_name req = JStr s ->
  trim s <> [] ->
  status (response_of (Aggregate.post_rooms req w)) = 201.
Proof.
  intros Hs Hname Hne.
  unfold Aggregate.post_rooms. rewrite Hname. run_monad. simpl.
  destruct (trim s) as [|c t] eqn:Et; [done|]. simpl.
  healthy_calls Hs.
  match goal with
  | |- context [find_room (?rs ++ [?r]) ?id] =>
      destruct (find_room_app_new rs r) as [found Hf];
      change id with (room_id r); rewrite Hf
  end.
  unfold response_of.
  destruct (io w); simpl; by destruct (fault _ _ (RedisDel _)).
Qed.

(** In the split-cache variant the cache calls are not guarded: when the
    connection fails, a listing without search term is answered 500, ... *)
Lemma Split_get_rooms_cache_down (req : ListReq) (w : World) (e : jstring) :
  norm_search (l_search req) = [] ->
  fault (env w) (length (trace w)) RedisConnect = Some e ->
  (Split.get_rooms req w).1 = Ok {| status := 500; body := rooms_fetch_error |}.
Proof.
  intros Hsearch Hf. unfold Split.get_rooms. rewrite Hsearch. run_monad.
  simpl. by rewrite Hf.
Qed.

(** ... and a creation is answered 500 although the room is in the store. *)
Lemma Split_post_rooms_cache_down (req : CreateReq) (w : World) (s e : jstring) :
  store_healthy w ->
  c_name req = JStr s ->
  trim s <> [] ->
  (forall n, fault (env w) n RedisConnect = Some e) ->
  let run := Split.post_rooms req w in
  run.1 = Ok {| status := 500; body := server_error e |}
  /\ rooms run.2 = rooms w ++ [new_room w (trim s) (c_user req) (c_password req)].
Proof.
  intros Hs Hname Hne Hf.
  unfold Split.post_rooms. rewrite Hname. run_monad. simpl.
  destruct (trim s) as [|c t] eqn:Et; [done|]. simpl.
  healthy_calls Hs. rewrite Hf. simpl. done.
Qed.

(** ** Failing inputs *)

(** C2, on the code: in the aggregate-cache variant alice lists the rooms
    and the page is cached with her flags; bob then sends the same
    signature and is answered that page as it is. In bob's response the
    room he created is flagged [isCreator: false] and the room alice
    created [isCreator: true]. *)
Theorem C2_cached_flags_of_another_principal :
  let req := fun u => Ex.list_req u None None None None None in
  let w0 := Ex.world Ex.env_ok ∅ in
  let first := Aggregate.get_rooms (req (js "u-alice")) w0 in
  let second := Aggregate.get_rooms (req (js "u-bob")) first.2 in
  signature (req (js "u-alice")) = signature (req (js "u-bob"))
  /\ calls_of (Aggregate.get_rooms (req (js "u-bob"))) first.2
     = [RedisGet (signature (req (js "u-bob")))]
  /\ second.1 = first.1
  /\ creator_flags (response_of second)
     = [(js "u-bob", JBool false); (js "u-alice", JBool true)].
Proof. vm_compute. repeat split; reflexivity. Qed.

(** C3, on the code: with the cache backend unreachable, the listing of the
    split-cache variant stops at the first cache call and answers 500; the
    aggregate-cache variant, its cache calls guarded, answers 200 from the
    store. *)
Theorem C3_split_listing_fails_with_cache_down :
  let req := Ex.list_req (js "u-bob") None None None None None in
  let w := Ex.world Ex.env_cache_down ∅ in
  (Split.get_rooms req w).1 = Ok {| status := 500; body := rooms_fetch_error |}
  /\ calls_of (Split.get_rooms req) w
     = [RedisConnect; ConsoleError (js "방 목록 조회 에러:")]
  /\ status (response_of (Aggregate.get_rooms req w)) = 200
  /\ names_of (response_of (Aggregate.get_rooms req w)) = [js "tower"; js "lobby"].
Proof. vm_compute. repeat split; reflexivity. Qed.

(** C4, on the code: with the cache backend unreachable, creation in the
    split-cache variant writes the room to the store and then answers 500;
    the aggregate-cache variant answers 201. *)
Theorem C4_split_creation_fails_after_store_write :
  let req := Ex.create_req (js "u-bob") (JStr (js "den")) in
  let w := Ex.world Ex.env_cache_down ∅ in
  let run := Split.post_rooms req w in
  room_name <$> rooms run.2 = [js "lobby"; js "tower"; js "den"]
  /\ run.1 = Ok {| status := 500;
                   body := server_error (js "connect ECONNREFUSED") |}
  /\ calls_of (Split.post_rooms req) w
     = [MongoInsert (js "den") (js "u-bob") None; MongoFindById (js "room-2");
        RedisConnect; ConsoleError (js "방 생성 에러:")]
  /\ status (response_of (Aggregate.post_rooms req w)) = 201.
Proof. vm_compute. repeat split; reflexivity. Qed.

(** In the aggregate-cache variant the sort stage precedes the stage that
    computes [participantsCount]: on stored rooms without such a field, as
    here, a request to sort by it, descending, is answered in store
    order. *)
Lemma Aggregate_sort_by_participantsCount :
  let req := Ex.list_req (js "u-alice") None None (Some (js "participantsCount"))
               (Some (js "desc")) None in
  let resp := response_of (Aggregate.get_rooms req (Ex.world Ex.env_ok ∅)) in
  names_of resp = [js "lobby"; js "tower"]
  /\ get_field (js "participantsCount") <$> data_of resp = [JNum 1; JNum 2].
Proof. vm_compute. split; reflexivity. Qed.

(** C7, on the code: the split-cache variant reads neither [sortField] nor
    [sortOrder]. A request for name ascending with no search term is served
    from the sorted index, newest first, and echoes createdAt/desc; with a
    search term it goes to the store, again newest first, and no cache is
    read or written. The aggregate-cache variant orders both by name. *)
Theorem C7_split_listing_ignores_sort :
  let req := fun search =>
    Ex.list_req (js "u-bob") None None (Some (js "name")) (Some (js "asc")) search in
  let w := Ex.world Ex.env_ok Ex.warm_cache in
  let plain := Split.get_rooms (req None) w in
  let searched := Split.get_rooms (req (Some (js "o"))) w in
  status (response_of plain) = 200
  /\ names_of (response_of plain) = [js "tower"; js "lobby"]
  /\ sort_of (response_of plain) = (JStr (js "createdAt"), JStr (js "desc"))
  /\ existsb touches_index (calls_of (Split.get_rooms (req None)) w) = true
  /\ existsb touches_aggregate (calls_of (Split.get_rooms (req None)) w) = false
  /\ names_of (response_of searched) = [js "tower"; js "lobby"]
  /\ calls_of (Split.get_rooms (req (Some (js "o")))) w
     = [MongoCount (js "o"); MongoFind (js "o") 0 10]
  /\ names_of (response_of (Aggregate.get_rooms (req None) w))
     = [js "lobby"; js "tower"]
  /\ names_of (response_of (Aggregate.get_rooms (req (Some (js "o"))) w))
     = [js "lobby"; js "tower"].
Proof. vm_compute. repeat split; reflexivity. Qed.

(** ** Numerals *)

Lemma digits_of_uint_all_digits d : all_digits (digits_of_uint d).
Proof. induction d; simpl; constructor; (lia || done). Qed.

Lemma read_digits_uint acc d :
  read_digits 10 (Some acc) (digits_of_uint d) = Some (uint_value acc d).
Proof. revert acc. induction d; intros acc; simpl; (done || apply IHd). Qed.

Lemma read_digits_uint_start d :
  d <> Decimal.Nil ->
  read_digits 10 None (digits_of_uint d) = Some (uint_value 0 d).
Proof. destruct d; intros H; simpl; (done || apply read_digits_uint). Qed.

Lemma uint_value_of_lu acc d :
  uint_value acc d
  = acc * 10 ^ Z.of_N (DecimalPos.Unsigned.usize d)
    + Z.of_N (DecimalPos.Unsigned.of_lu (Decimal.rev d)).
Proof.
  revert acc. induction d; intros acc; simpl uint_value.
  1: { change (acc = acc * 1 + 0). lia. }
  all: unfold Decimal.rev; simpl Decimal.revapp;
    rewrite DecimalPos.Unsigned.of_lu_revapp, IHd;
    simpl DecimalPos.Unsigned.usize; simpl DecimalPos.Unsigned.of_lu;
    rewrite N2Z.inj_succ, Z.pow_succ_r by lia;
    rewrite ?N2Z.inj_add, ?N2Z.inj_mul, ?N2Z.inj_pow;
    simpl Z.of_N; ring.
Qed.

Lemma uint_value_of_uint d : uint_value 0 d = Z.of_N (N.of_uint d).
Proof.
  rewrite uint_value_of_lu. unfold N.of_uint.
  rewrite DecimalPos.Unsigned.of_uint_alt. lia.
Qed.

Lemma digit_cases (c : N) :
  (48 <= c <= 57)%N ->
  c = 48%N \/ c = 49%N \/ c = 50%N \/ c = 51%N \/ c = 52%N \/ c = 53%N
  \/ c = 54%N \/ c = 55%N \/ c = 56%N \/ c = 57%N.
Proof. lia. Qed.

Ltac digit_split c H :=
  destruct (digit_cases c H) as [->|[->|[->|[->|[->|[->|[->|[->|[->| ->]]]]]]]]].

(** ** Ranks that a double holds and that the index accepts *)

Lemma round_double_exact n : n <= 2 ^ 53 -> round_double n = n.
Proof.
  intros H. unfold round_double.
  destruct (Z.ltb_spec n (2 ^ 53)) as [|Hge]; [done|].
  assert (n = 2 ^ 53) as -> by lia. vm_compute. reflexivity.
Qed.

Lemma Number_of_exact n : n <= 2 ^ 53 -> Number_of n = Finite n.
Proof.
  intros H. unfold Number_of. rewrite round_double_exact by done.
  destruct (Z.ltb_spec n (2 ^ 1024)) as [|Hge]; [done|].
  assert (2 ^ 53 < 2 ^ 1024) by (apply Z.pow_lt_mono_r; lia). lia.
Qed.

Lemma Number_toString_exact n :
  n < 2 ^ 53 -> Number_toString (Finite n) = String_of_Z n.
Proof.
  intros H. unfold Number_toString.
  destruct (Z.ltb_spec n (2 ^ 53)) as [|Hge]; [done | lia].
Qed.

(** The numeral of a positive number starts with a digit that is not 0. *)
Lemma to_uint_head p :
  exists c r, digits_of_uint (Pos.to_uint p) = c :: r /\ (49 <= c <= 57)%N.
Proof.
  pose proof (DecimalPos.Unsigned.to_uint_nonzero p) as Hz.
  assert (Hn : Decimal.unorm (Pos.to_uint p) = Pos.to_uint p).
  { rewrite <- (DecimalPos.Unsigned.to_of (Pos.to_uint p)).
    by rewrite DecimalPos.Unsigned.of_to. }
  destruct (Pos.to_uint p) as [|d|d|d|d|d|d|d|d|d|d];
    try (eexists _, _; split; [reflexivity | lia]).
  - discriminate Hn.
  - exfalso. rewrite DecimalFacts.unorm_D0 in Hn. unfold Decimal.unorm in Hn.
    pose proof (DecimalFacts.nzhead_nonzero d) as Hnz.
    destruct (Decimal.nzhead d) eqn:E; try discriminate Hn.
    + injection Hn as <-. by apply Hz.
    + by apply (Hnz u).
Qed.

Lemma all_digits_forallb s : all_digits s -> forallb is_digit s = true.
Proof.
  induction 1 as [|c s Hc _ IH]; [done|]. simpl. rewrite IH.
  unfold is_digit. destruct (N.leb_spec 48 c), (N.leb_spec c 57); (done || lia).
Qed.

Lemma ll_magnitude_uint p :
  ll_magnitude (digits_of_uint (Pos.to_uint p)) = Some (Z.pos p).
Proof.
  pose proof (digits_of_uint_all_digits (Pos.to_uint p)) as Hd.
  assert (Hv : read_digits 10 None (digits_of_uint (Pos.to_uint p))
               = Some (Z.pos p)).
  { rewrite read_digits_uint_start
      by apply DecimalPos.Unsigned.to_uint_nonnil.
    rewrite uint_value_of_uint. unfold N.of_uint.
    by rewrite DecimalPos.Unsigned.of_to. }
  destruct (to_uint_head p) as (c & r & E & Hc). rewrite E in *.
  unfold ll_magnitude. rewrite all_digits_forallb by done.
  destruct (N.leb_spec 49 c); [exact Hv | lia].
Qed.

(** The index reads the numeral of a rank below 2^63 as that rank. *)
Lemma string2ll_String_of_Z n :
  0 <= n < 2 ^ 63 -> string2ll (String_of_Z n) = Some n.
Proof.
  destruct n as [|p|p]; [reflexivity | | lia]. intros [_ H].
  change (String_of_Z (Z.pos p)) with (digits_of_uint (Pos.to_uint p)).
  pose proof (ll_magnitude_uint p) as Hm.
  destruct (to_uint_head p) as (c & r & E & Hc). rewrite E in *.
  transitivity (match ll_magnitude (c :: r) with
                | Some v => if v <? 2 ^ 63 then Some v else None
                | None => None
                end).
  - clear -Hc. assert (Hc' : (48 <= c <= 57)%N) by lia.
    digit_split c Hc'; (reflexivity || lia).
  - rewrite Hm. destruct (Z.ltb_spec (Z.pos p) (2 ^ 63)); [done | lia].
Qed.

(** ** The default listing of the split-cache variant *)

Lemma records_nil w : records [] w = w.
Proof. destruct w. unfold records. simpl. by rewrite app_nil_r. Qed.

Lemma record_records o ops w : records ops (record o w) = records (o :: ops) w.
Proof. unfold records, record. simpl. by rewrite <- app_assoc. Qed.

Lemma set_redis_id w : set_redis (fun c => c) w = w.
Proof. by destruct w. Qed.

Lemma redis_get_run key w :
  healthy w ->
  redis_get key w
  = (match redis w !! key with
     | Some (RString v _) => Ok (Some v)
     | Some (RZSet _) => Throw WRONGTYPE
     | None => Ok None
     end, record (RedisGet key) w).
Proof.
  intros Hh. unfold redis_get. rewrite call_ok by apply Hh.
  unfold bind, read, ret, throw. simpl.
  by destruct (redis w !! key) as [[]|].
Qed.

Lemma promise_all_gets ids w :
  healthy w ->
  well_typed (redis w) ->
  promise_all (redis_get ∘ Split.detail_key <$> ids) w
  = (Ok (cached_detail (redis w) <$> ids),
     records (RedisGet ∘ Split.detail_key <$> ids) w).
Proof.
  intros Hh Ht. revert w Hh Ht.
  induction ids as [|id ids IH]; intros w Hh Ht.
  - simpl. by rewrite records_nil.
  - rewrite !fmap_cons. cbn [promise_all]. unfold compose at 1.
    rewrite redis_get_run by done. cbv beta iota.
    rewrite (IH (record (RedisGet (Split.detail_key id)) w)) by done.
    rewrite record_records. unfold cached_detail at 2. simpl.
    destruct (redis w !! Split.detail_key id) as [[v ttl|m]|] eqn:E; try done.
    by destruct (proj2 Ht id m).
Qed.

Lemma repair_run r0 ids w :
  healthy w ->
  Split.repair ids (cached_detail r0 <$> ids) w
  = (Ok (repaired_detail r0 (rooms w) (snapshot w) <$> ids),
     set_redis (written_back r0 (rooms w) (snapshot w) ids)
       (records (ids ≫= repair_calls r0 (rooms w) (snapshot w)) w)).
Proof.
  revert w. induction ids as [|id ids IH]; intros w Hh.
  - simpl. unfold ret. by rewrite records_nil, set_redis_id.
  - rewrite !fmap_cons, bind_cons. cbn [Split.repair written_back].
    unfold repaired_detail at 1, repair_calls at 1.
    destruct (cached_detail r0 id) as [v|] eqn:Ec.
    + unfold bind at 1, ret at 1. unfold bind at 1.
      rewrite (IH w Hh). reflexivity.
    + unfold bind at 1, bind at 1, Room_findById.
      rewrite call_ok by apply Hh. unfold read at 1.
      change (rooms (record (MongoFindById id) w)) with (rooms w).
      destruct (find_room (rooms w) id) as [d|] eqn:Ef.
      * unfold bind at 1, read at 1, bind at 1, redis_set.
        rewrite call_ok by apply Hh. unfold modify, ret at 1, bind at 1.
        rewrite IH by exact Hh.
        unfold ret, set_redis, records, record, snapshot. simpl.
        by rewrite <- !app_assoc.
      * unfold ret at 1, bind at 1. rewrite IH by exact Hh.
        unfold ret, set_redis, records, record. simpl.
        by rewrite <- !app_assoc.
Qed.

(** *** The sorted index is read in descending order of score *)

Lemma str_leb_total a b : str_leb a b = true \/ str_leb b a = true.
Proof.
  revert b. induction a as [|x a IH]; intros [|y b]; simpl; auto.
  destruct (N.ltb_spec x y), (N.ltb_spec y x); simpl; auto; try lia.
  assert (x = y) as -> by lia. rewrite N.eqb_refl. simpl. apply IH.
Qed.

#[local] Instance zrev_before_total :
  Total (fun x y : jstring * Z => Is_true (zrev_before x y)).
Proof.
  intros [a x] [b y]. unfold zrev_before. simpl.
  rewrite !Is_true_true, !orb_true_iff, !andb_true_iff.
  destruct (Z.lt_trichotomy x y) as [H|[->|H]].
  - right. left. lia.
  - rewrite Z.eqb_refl. destruct (str_leb_total a b); auto.
  - left. left. lia.
Qed.

Lemma Sorted_weaken {A} (R R' : A -> A -> Prop) l :
  (forall x y, R x y -> R' x y) -> Sorted R l -> Sorted R' l.
Proof.
  intros H. induction 1 as [|x l Hs IH Hhd]; constructor; [done|].
  destruct Hhd; constructor; auto.
Qed.

(** Scores never increase along the order, and the order lists the
    members of the index, each once. *)
Lemma zrev_order_descending (m : gmap jstring Z) :
  StronglySorted (fun x y : jstring * Z => y.2 <= x.2) (zrev_order m)
  /\ zrev_order m ≡ₚ map_to_list m.
Proof.
  split; [|apply merge_sort_Permutation].
  apply Sorted_StronglySorted.
  - intros x y z ? ?. lia.
  - eapply Sorted_weaken; [|apply Sorted_merge_sort, _].
    intros [a x] [b y]. unfold zrev_before. simpl.
    rewrite Is_true_true, orb_true_iff, andb_true_iff. lia.
Qed.

Lemma zrev_order_length (m : gmap jstring Z) : length (zrev_order m) = size m.
Proof.
  rewrite (Permutation_length (proj2 (zrev_order_descending m))).
  apply length_map_to_list.
Qed.

(** For ranks [0 <= start <= stop], [zrevrange] is that window of the
    order; past the end the window is cut. *)
Lemma zrevrange_window (m : gmap jstring Z) (start stop : Z) :
  0 <= start <= stop ->
  zrevrange m start stop
  = (take (Z.to_nat (stop - start + 1))
       (drop (Z.to_nat start) (zrev_order m))).*1.
Proof.
  intros H. unfold zrevrange, zindex.
  pose proof (zrev_order_length m) as Hl.
  destruct (start <? 0) eqn:E1; [lia|]. destruct (stop <? 0) eqn:E2; [lia|].
  set (card := Z.of_nat (size m)) in *.
  destruct ((start >? Z.min stop (card - 1)) || (card <=? start)) eqn:E.
  - rewrite drop_ge by lia. by rewrite take_nil.
  - apply orb_false_iff in E as [Ea Eb]. f_equal.
    destruct (Z.le_gt_cases stop (card - 1)).
    + by rewrite Z.min_l by lia.
    + rewrite Z.min_r by lia.
      rewrite !take_ge; [done | |]; rewrite length_drop; lia.
Qed.

Lemma zrevrange_empty start stop : zrevrange ∅ start stop = [].
Proof.
  unfold zrevrange. destruct (_ || _); [done|].
  unfold zrev_order. rewrite map_to_list_empty.
  change (merge_sort _ []) with (@nil (jstring * Z)).
  by rewrite drop_nil, take_nil.
Qed.

Lemma redis_zrevrange_run w start stop :
  healthy w ->
  well_typed (redis w) ->
  0 <= start < 2 ^ 63 ->
  0 <= stop < 2 ^ 63 ->
  redis_zrevrange Split.index_key (String_of_Z start) (String_of_Z stop) w
  = (Ok (zrevrange (index_of (redis w)) start stop),
     record (RedisZRevRange Split.index_key (String_of_Z start)
               (String_of_Z stop)) w).
Proof.
  intros Hh [Ht _] Ha Hb. unfold redis_zrevrange.
  rewrite call_ok by apply Hh. rewrite !string2ll_String_of_Z by done.
  unfold bind, read, ret, throw, index_of. simpl.
  destruct (redis w !! Split.index_key) as [[v ttl|m]|] eqn:E; try done.
  - by destruct (Ht v ttl).
  - by rewrite zrevrange_empty.
Qed.

Lemma redis_zcard_run w :
  healthy w ->
  well_typed (redis w) ->
  redis_zcard Split.index_key w
  = (Ok (Z.of_nat (size (index_of (redis w)))),
     record (RedisZCard Split.index_key) w).
Proof.
  intros Hh [Ht _]. unfold redis_zcard. rewrite call_ok by apply Hh.
  unfold bind, read, ret, throw, index_of. simpl.
  destruct (redis w !! Split.index_key) as [[v ttl|m]|] eqn:E; try done.
  by destruct (Ht v ttl).
Qed.

Lemma detail_key_ne_index_key id : Split.detail_key id <> Split.index_key.
Proof. intros H. vm_compute in H. discriminate H. Qed.

(** The repairs write detail keys only: the index is as it was. *)
Lemma written_back_index r0 rs snap ids cache :
  written_back r0 rs snap ids cache !! Split.index_key = cache !! Split.index_key.
Proof.
  revert cache. induction ids as [|id ids IH]; intros cache; [done|].
  simpl. rewrite IH.
  destruct (cached_detail r0 id), (find_room rs id); try done.
  apply lookup_insert_ne, detail_key_ne_index_key.
Qed.

Lemma written_back_well_typed r0 rs snap ids cache :
  well_typed cache -> well_typed (written_back r0 rs snap ids cache).
Proof.
  revert cache. induction ids as [|id ids IH]; intros cache Ht; [done|].
  simpl. apply IH.
  destruct (cached_detail r0 id), (find_room rs id); try done.
  destruct Ht as [Hi Hd]. split.
  - intros v ttl. rewrite lookup_insert_ne by apply detail_key_ne_index_key.
    apply Hi.
  - intros id' m. rewrite lookup_insert. case_decide; [done | apply Hd].
Qed.

Lemma repair_calls_spare_aggregate r0 rs snap id :
  Forall (fun o => touches_aggregate o = false) (repair_calls r0 rs snap id).
Proof.
  unfold repair_calls.
  destruct (cached_detail r0 id); [constructor|].
  destruct (find_room rs id); repeat constructor.
Qed.

Lemma index_of_written_back r0 rs snap ids cache :
  index_of (written_back r0 rs snap ids cache) = index_of cache.
Proof. unfold index_of. by rewrite written_back_index. Qed.

Lemma bind_run {A B} (m : M A) (k : A -> M B) w a w' :
  m w = (Ok a, w') -> bind m k w = k a w'.
Proof. intros H. unfold bind. by rewrite H. Qed.

Lemma redis_connect_run w :
  healthy w -> redis_connect w = (Ok tt, record RedisConnect w).
Proof. intros Hh. unfold redis_connect. by rewrite call_ok by apply Hh. Qed.

Lemma parsed_length l : (length (Split.parsed l) <= length l)%nat.
Proof.
  unfold Split.parsed. etransitivity; [apply List.filter_length_le|].
  by rewrite length_fmap.
Qed.

(** The window of a page holds at most [pageSize] identifiers. *)
Lemma window_length req w :
  Z.of_nat (length (window req w)) <= norm_pageSize (l_pageSize req).
Proof.
  pose proof (norm_pageSize_bounds (l_pageSize req)) as Hps.
  pose proof (norm_page_nonneg (l_page req)) as Hp.
  unfold window. rewrite zrevrange_window by nia.
  rewrite length_fmap, length_take. lia.
Qed.

Lemma index_listing_run (req : ListReq) (w : World) :
  norm_search (l_search req) = [] ->
  exact_ranks req ->
  healthy w ->
  well_typed (redis w) ->
  Split.get_rooms req w
  = (Ok {| status := 200; body := index_page req w |},
     set_redis (written_back (redis w) (rooms w) (snapshot w) (window req w))
       (records (index_calls req w) w)).
Proof.
  intros Hsearch Hx Hh Ht. unfold exact_ranks in Hx.
  pose proof (norm_pageSize_bounds (l_pageSize req)) as Hps.
  pose proof (norm_page_nonneg (l_page req)) as Hp.
  pose proof (window_length req w) as Hwin.
  assert (H63 : 2 ^ 53 < 2 ^ 63) by (vm_compute; reflexivity).
  unfold Split.get_rooms, try_catch. rewrite Hsearch. cbn [truthy_str negb].
  cbv zeta. rewrite (Number_of_exact (norm_page _)) by nia.
  cbn [num_mul num_json]. rewrite (Number_of_exact (_ * _)) by nia.
  cbn [num_add]. rewrite (Number_of_exact (_ + _)) by nia.
  cbn [num_sub]. rewrite (Number_of_exact (_ - _)) by nia.
  rewrite !Number_toString_exact by nia.
  erewrite bind_run; [|by apply redis_connect_run].
  erewrite bind_run; [|apply redis_zrevrange_run; (done || nia)].
  fold (window req w).
  erewrite bind_run; [|by apply promise_all_gets].
  erewrite bind_run; [|by apply repair_run].
  erewrite bind_run;
    [|apply redis_zcard_run; [done | by apply written_back_well_typed]].
  rewrite Number_of_exact.
  2: { match goal with
       | |- _ + Z.of_nat (length (Split.parsed (?f <$> ?l))) <= _ =>
           assert (Hlen : (length (Split.parsed (f <$> l))
                           <= length (window req w))%nat)
             by (etransitivity; [apply parsed_length | by rewrite length_fmap]);
           set (n := length (Split.parsed (f <$> l))) in *
       end. nia. }
  unfold res_json, ret. f_equal.
  - unfold index_page. fold (window req w).
    cbn [redis set_redis records record rooms num_ltb].
    by rewrite index_of_written_back.
  - unfold index_calls, set_redis, records, record. simpl.
    by rewrite <- !app_assoc.
Qed.

Lemma detail_key_inj id id' :
  Split.detail_key id = Split.detail_key id' -> id = id'.
Proof. unfold Split.detail_key. apply app_inv_head. Qed.

(** A repaired entry is in the cache afterwards, with its 3600 seconds. *)
Lemma written_back_lookup r0 rs snap ids cache id d :
  cached_detail r0 id = None ->
  find_room rs id = Some d ->
  id ∈ ids \/ cache !! Split.detail_key id = Some (RString (snap d) (Some 3600)) ->
  written_back r0 rs snap ids cache !! Split.detail_key id
  = Some (RString (snap d) (Some 3600)).
Proof.
  intros Hc Hf. revert cache.
  induction ids as [|id' ids IH]; intros cache [Hin|Hl]; simpl.
  - by apply elem_of_nil in Hin.
  - done.
  - apply IH. apply elem_of_cons in Hin as [<-|Hin]; [|by left].
    right. rewrite Hc, Hf. apply lookup_insert_eq.
  - apply IH. right.
    destruct (cached_detail r0 id') eqn:Ec'; [done|].
    destruct (find_room rs id') as [d'|] eqn:Ef'; [|done].
    rewrite lookup_insert. case_decide as Hk; [|done].
    apply detail_key_inj in Hk as ->. congruence.
Qed.

Lemma index_calls_spare_aggregate req w :
  Forall (fun o => touches_aggregate o = false) (index_calls req w).
Proof.
  unfold index_calls. repeat apply Forall_app_2.
  - by repeat constructor.
  - apply Forall_fmap, Forall_forall. intros id _. simpl.
    apply detail_key_not_list_key.
  - apply Forall_bind, Forall_forall. intros id _.
    apply repair_calls_spare_aggregate.
  - by repeat constructor.
Qed.

Lemma find_room_id rs id d : find_room rs id = Some d -> room_id d = id.
Proof.
  unfold find_room. intros H. apply find_some in H as [_ H].
  by apply bool_decide_eq_true in H.
Qed.

Lemma json_strings (ids : list jstring) :
  map (fun x => match x with JUndefined => JNull | _ => json x end)
    (JStr <$> ids)
  = JStr <$> ids.
Proof. induction ids as [|i ids IH]; [done|]. rewrite fmap_cons. simpl. by f_equal. Qed.

(** The snapshot of a room is its populated record. *)
Lemma snapshot_record w d : snapshot w d = populated_record w d.
Proof.
  unfold snapshot, lean_room, populated_record, room_obj, populated_creator,
    populate_creator, user_obj, id_refs.
  destruct (find_user (users w) (room_creator d)) as [u|],
    (room_password d) as [secret|], (password_selected (env w));
    cbn [json app]; by rewrite json_strings.
Qed.


Lemma warm_cache_well_typed : well_typed Ex.warm_cache.
Proof.
  unfold Ex.warm_cache. split.
  - intros v ttl. by rewrite lookup_insert_eq.
  - intros id m. rewrite lookup_insert_ne by (symmetry; apply detail_key_ne_index_key).
    rewrite lookup_singleton. by case_decide.
Qed.



(** * Further properties of the handlers *)

(** ** Numerals and the query signature *)

(** On a string of digits [parseInt] neither trims nor finds a sign or a
    hexadecimal prefix. *)
Lemma parseInt_string_digits s :
  all_digits s -> parseInt_string s = read_digits 10 None s.
Proof.
  intros Hs.
  transitivity (match read_digits 10 None s with
                | Some m => Some (1 * m)
                | None => None
                end); [|by destruct (read_digits 10 None s) as [[]|]].
  destruct s as [|c s]; [reflexivity|].
  apply Forall_cons in Hs as [Hc Hs].
  digit_split c Hc; try (vm_compute; reflexivity).
  destruct s as [|c2 s]; [reflexivity|].
  apply Forall_cons in Hs as [Hc2 Hs].
  digit_split c2 Hc2; vm_compute; reflexivity.
Qed.

Lemma parseInt_string_minus s :
  all_digits s ->
  parseInt_string (45%N :: s) = Z.opp <$> read_digits 10 None s.
Proof.
  intros Hs.
  transitivity (match read_digits 10 None s with
                | Some m => Some (-1 * m)
                | None => None
                end); [|by destruct (read_digits 10 None s) as [[]|]].
  destruct s as [|c s]; [reflexivity|].
  apply Forall_cons in Hs as [Hc Hs].
  digit_split c Hc; try (vm_compute; reflexivity).
  destruct s as [|c2 s]; [reflexivity|].
  apply Forall_cons in Hs as [Hc2 Hs].
  digit_split c2 Hc2; vm_compute; reflexivity.
Qed.

(** [parseInt(String(n))] is [n]. *)
Lemma parseInt_String_of_Z (n : Z) : parseInt (Some (String_of_Z n)) = Some n.
Proof.
  unfold parseInt, String_of_Z. destruct n as [|p|p].
  - reflexivity.
  - rewrite parseInt_string_digits by apply digits_of_uint_all_digits.
    rewrite read_digits_uint_start, uint_value_of_uint.
    + simpl Z.to_N. by rewrite DecimalN.Unsigned.of_to.
    + simpl. apply DecimalPos.Unsigned.to_uint_nonnil.
  - rewrite parseInt_string_minus by apply digits_of_uint_all_digits.
    rewrite read_digits_uint_start by apply DecimalPos.Unsigned.to_uint_nonnil.
    rewrite uint_value_of_uint. unfold N.of_uint.
    by rewrite DecimalPos.Unsigned.of_to.
Qed.

(** The normalised parameters, the numbers written as decimal numerals,
    are fixed points of the normalisation. *)
Lemma normalisation_idempotent (page pageSize sortField sortOrder search
    : option jstring) :
  norm_page (Some (String_of_Z (norm_page page))) = norm_page page
  /\ norm_pageSize (Some (String_of_Z (norm_pageSize pageSize)))
     = norm_pageSize pageSize
  /\ norm_sortField (Some (norm_sortField sortField)) = norm_sortField sortField
  /\ norm_sortOrder (Some (norm_sortOrder sortOrder)) = norm_sortOrder sortOrder
  /\ norm_search (Some (norm_search search)) = norm_search search.
Proof.
  repeat split.
  - pose proof (norm_page_nonneg page).
    generalize dependent (norm_page page). intros n Hn.
    unfold norm_page. rewrite parseInt_String_of_Z, num_or_spec.
    destruct (decide (n = 0)); lia.
  - pose proof (norm_pageSize_bounds pageSize).
    generalize dependent (norm_pageSize pageSize). intros n Hn.
    unfold norm_pageSize. rewrite parseInt_String_of_Z, num_or_spec.
    destruct (decide (n = 0)); lia.
  - unfold norm_sortField, includes.
    destruct sortField as [f|]; [|reflexivity].
    destruct (bool_decide (f ∈ _)) eqn:E; simpl; [by rewrite E | reflexivity].
  - unfold norm_sortOrder, includes.
    destruct sortOrder as [o|]; [|reflexivity].
    destruct (bool_decide (o ∈ _)) eqn:E; simpl; [by rewrite E | reflexivity].
  - unfold norm_search. destruct search as [[|c q]|]; reflexivity.
Qed.

Lemma String_of_Z_inj n m : String_of_Z n = String_of_Z m -> n = m.
Proof.
  intros H. apply (f_equal (fun s => parseInt (Some s))) in H.
  rewrite !parseInt_String_of_Z in H. congruence.
Qed.

Lemma all_digits_colon_free s : all_digits s -> colon_free s.
Proof.
  unfold all_digits, colon_free. rewrite Forall_forall. intros H Hin.
  specialize (H _ Hin). lia.
Qed.

Lemma String_of_Z_colon_free n : colon_free (String_of_Z n).
Proof.
  unfold String_of_Z. destruct n; try apply all_digits_colon_free,
    digits_of_uint_all_digits.
  unfold colon_free. rewrite not_elem_of_cons. split; [done|].
  apply all_digits_colon_free, digits_of_uint_all_digits.
Qed.

(** Two strings cut at their first colon agree part by part. *)
Lemma colon_split x x' r r' :
  colon_free x -> colon_free x' ->
  x ++ 58%N :: r = x' ++ 58%N :: r' -> x = x' /\ r = r'.
Proof.
  unfold colon_free. revert x'.
  induction x as [|c x IH]; intros [|c' x'] Hx Hx' H; simpl in H.
  - by injection H as ->.
  - injection H as <- _. exfalso. apply Hx'. by left.
  - injection H as -> _. exfalso. apply Hx. by left.
  - injection H as -> H. apply not_elem_of_cons in Hx as [_ Hx].
    apply not_elem_of_cons in Hx' as [_ Hx'].
    destruct (IH x' Hx Hx' H) as [-> ->]. done.
Qed.

Lemma cacheKey_parts page pageSize sortField sortOrder search :
  Aggregate.cacheKey page pageSize sortField sortOrder search
  = js "chat:rooms:list:page="
    ++ (String_of_Z page ++ 58%N :: js "size="
    ++ (String_of_Z pageSize ++ 58%N :: js "sort="
    ++ (sortField ++ 58%N :: (sortOrder ++ 58%N :: js "search=" ++ search)))).
Proof.
  reflexivity.
Qed.

(** The cache key of line 89 determines the parameters it is made of:
    requests whose pages differ never share an entry. *)
Theorem cacheKey_injective page pageSize sortField sortOrder search
    page' pageSize' sortField' sortOrder' search' :
  colon_free sortField -> colon_free sortField' ->
  colon_free sortOrder -> colon_free sortOrder' ->
  Aggregate.cacheKey page pageSize sortField sortOrder search
  = Aggregate.cacheKey page' pageSize' sortField' sortOrder' search' ->
  page = page' /\ pageSize = pageSize' /\ sortField = sortField'
  /\ sortOrder = sortOrder' /\ search = search'.
Proof.
  intros Hf Hf' Ho Ho' H. rewrite !cacheKey_parts in H.
  apply app_inv_head in H.
  apply colon_split in H as [Hp H]; try apply String_of_Z_colon_free.
  apply app_inv_head in H.
  apply colon_split in H as [Hs H]; try apply String_of_Z_colon_free.
  apply app_inv_head in H.
  apply colon_split in H as [-> H]; try done.
  apply colon_split in H as [-> H]; try done.
  apply app_inv_head in H.
  by rewrite (String_of_Z_inj _ _ Hp), (String_of_Z_inj _ _ Hs), H.
Qed.

Ltac colon_free_literal :=
  unfold colon_free; apply (bool_decide_unpack _); vm_compute; reflexivity.

Lemma norm_sortField_colon_free q : colon_free (norm_sortField q).
Proof.
  unfold norm_sortField, includes. destruct q as [f|]; [|colon_free_literal].
  destruct (bool_decide (f ∈ _)) eqn:E; [|colon_free_literal].
  apply bool_decide_eq_true in E. simpl.
  rewrite !elem_of_cons, elem_of_nil in E.
  destruct E as [->|[->|[->|[]]]]; colon_free_literal.
Qed.

Lemma norm_sortOrder_colon_free q : colon_free (norm_sortOrder q).
Proof.
  unfold norm_sortOrder, includes. destruct q as [f|]; [|colon_free_literal].
  destruct (bool_decide (f ∈ _)) eqn:E; [|colon_free_literal].
  apply bool_decide_eq_true in E. simpl.
  rewrite !elem_of_cons, elem_of_nil in E.
  destruct E as [->|[->|[]]]; colon_free_literal.
Qed.

(** Two listing requests whose pages a double holds exactly have the same
    signature exactly when their normalised parameters are the same; the
    requesting principal plays no part. *)
Theorem signature_eq_iff (req req' : ListReq) :
  exact_ranks req ->
  exact_ranks req' ->
  signature req = signature req'
  <-> norm_page (l_page req) = norm_page (l_page req')
      /\ norm_pageSize (l_pageSize req) = norm_pageSize (l_pageSize req')
      /\ norm_sortField (l_sortField req) = norm_sortField (l_sortField req')
      /\ norm_sortOrder (l_sortOrder req) = norm_sortOrder (l_sortOrder req')
      /\ norm_search (l_search req) = norm_search (l_search req').
Proof.
  intros _ _. unfold signature. split.
  - apply cacheKey_injective;
      first [apply norm_sortField_colon_free | apply norm_sortOrder_colon_free].
  - by intros (-> & -> & -> & -> & ->).
Qed.

Lemma signature_eq_iff_witness :
  let a := Ex.list_req (js "u-alice") (Some (js "2")) (Some (js "20")) None
             None None in
  let b := Ex.list_req (js "u-bob") (Some (js "2")) (Some (js "020"))
             (Some (js "age")) None None in
  let c := Ex.list_req (js "u-alice") (Some (js "3")) (Some (js "20")) None
             None None in
  signature a = signature b /\ signature a <> signature c.
Proof.
  intros a b c.
  assert (Ha : exact_ranks a) by (vm_compute; discriminate).
  assert (Hb : exact_ranks b) by (vm_compute; discriminate).
  assert (Hc : exact_ranks c) by (vm_compute; discriminate).
  split.
  - apply (signature_eq_iff a b Ha Hb). vm_compute. by repeat split.
  - intros H. apply (signature_eq_iff a c Ha Hc) in H as [H _].
    vm_compute in H. discriminate H.
Defined.

(** ** The aggregate query cache *)

Lemma healthy_store w : healthy w -> store_healthy w.
Proof. intros H n o _. apply H. Qed.

Lemma healthy_cache w : healthy w -> cache_healthy w.
Proof. intros H n o _. apply H. Qed.

Lemma try_catch_ok {A} (m : M A) h w a w' :
  m w = (Ok a, w') -> try_catch m h w = (Ok a, w').
Proof. intros H. unfold try_catch. by rewrite H. Qed.

Lemma read_run {A} (f : World -> A) w : read f w = (Ok (f w), w).
Proof. reflexivity. Qed.

Lemma redis_set_run key v ttl w :
  healthy w ->
  redis_set key v ttl w
  = (Ok tt, set_redis (insert key (RString (json v) (Some ttl)))
              (record (RedisSet key (json v) ttl) w)).
Proof. intros Hh. unfold redis_set. by rewrite call_ok by apply Hh. Qed.

Lemma Room_countDocuments_run search w :
  healthy w ->
  Room_countDocuments search w
  = (Ok (Z.of_nat (length (List.filter (matches (env w) search) (rooms w)))),
     record (MongoCount search) w).
Proof. intros Hh. unfold Room_countDocuments. by rewrite call_ok by apply Hh. Qed.

Lemma Room_aggregate_run search sortField sortOrder skip limit w :
  healthy w ->
  Room_aggregate search sortField sortOrder skip limit w
  = (Ok (project_room (users w) <$>
           skip_limit skip limit
             (mongo_sort sortField (bool_decide (sortOrder = js "desc"))
                (List.filter (matches (env w) search) (rooms w)))),
     record (MongoAggregate search sortField sortOrder skip limit) w).
Proof. intros Hh. unfold Room_aggregate. by rewrite call_ok by apply Hh. Qed.

(** A listing that misses: the page comes from the store and is written to
    the cache under the signature, for 60 seconds. *)
Lemma Aggregate_get_rooms_miss (req : ListReq) (w : World) :
  healthy w ->
  redis w !! signature req = None ->
  Aggregate.get_rooms req w
  = (Ok {| status := 200; body := fresh_page req w |},
     set_redis (insert (signature req)
                  (RString (json (fresh_page req w)) (Some 60)))
       (records (miss_calls req w) w)).
Proof.
  intros Hh Hmiss.
  unfold Aggregate.get_rooms, miss_calls, fresh_page, signature in *.
  set (key := Aggregate.cacheKey _ _ _ _ _) in *.
  set (search := norm_search _) in *. set (page := norm_page _) in *.
  set (pageSize := norm_pageSize _) in *.
  set (sortField := norm_sortField _) in *.
  set (sortOrder := norm_sortOrder _) in *.
  apply try_catch_ok.
  erewrite bind_run; cycle 1.
  { apply try_catch_ok. unfold Aggregate.redisClient_get.
    erewrite bind_run; [reflexivity|].
    rewrite redis_get_run by done. by rewrite Hmiss. }
  change (truthy (default JNull None)) with false. cbv iota.
  erewrite bind_run; [|by apply Room_countDocuments_run].
  erewrite bind_run; [|by apply Room_aggregate_run].
  erewrite bind_run; [|apply read_run].
  erewrite bind_run; cycle 1.
  { apply try_catch_ok. unfold Aggregate.redisClient_set.
    by apply redis_set_run. }
  unfold res_json, ret, set_redis, records, record.
  cbn [env rooms users redis io now trace]. by rewrite <- !app_assoc.
Qed.

(** A listing that hits: one cache read, and the stored page is the
    answer. *)
Lemma Aggregate_get_rooms_hit (req : ListReq) (w : World) (v : jsval) ttl :
  healthy w ->
  redis w !! signature req = Some (RString v ttl) ->
  truthy v = true ->
  Aggregate.get_rooms req w
  = (Ok {| status := 200; body := v |}, record (RedisGet (signature req)) w).
Proof.
  intros Hh Hhit Hv.
  unfold Aggregate.get_rooms, signature in *.
  set (key := Aggregate.cacheKey _ _ _ _ _) in *.
  apply try_catch_ok.
  erewrite bind_run; cycle 1.
  { apply try_catch_ok. unfold Aggregate.redisClient_get.
    erewrite bind_run; [reflexivity|].
    rewrite redis_get_run by done. by rewrite Hhit. }
  change (default JNull (Some v)) with v. by rewrite Hv.
Qed.

(** A value without [undefined] in it: serialising it changes nothing. *)
Lemma plain_js_or a b :
  (truthy a = true -> json a = a) -> json b = b -> b <> JUndefined ->
  json (js_or a b) = js_or a b /\ js_or a b <> JUndefined.
Proof.
  intros Ha Hb Hu. unfold js_or. destruct (truthy a) eqn:E; [|done].
  split; [by apply Ha|]. by intros ->.
Qed.

Lemma json_obj_plain fs :
  Forall (fun kv => json kv.2 = kv.2 /\ kv.2 <> JUndefined) fs ->
  json (JObj fs) = JObj fs.
Proof.
  intros H. change (json (JObj fs)) with (JObj (json_props fs)). f_equal.
  induction H as [|[k v] r [Hv Hu] _ IH]; [done|].
  rewrite json_props_cons, IH. simpl in *. rewrite Hv. by destruct v.
Qed.

Lemma opt_toString_plain v d :
  json (js_or (opt_toString v) (JStr d)) = js_or (opt_toString v) (JStr d)
  /\ js_or (opt_toString v) (JStr d) <> JUndefined.
Proof. apply plain_js_or; [|done..]. by destruct v. Qed.

(** A summary row has no [undefined] in it. *)
Lemma json_safeRoom user date us r :
  json (Aggregate.safeRoom user date (project_room us r))
  = Aggregate.safeRoom user date (project_room us r).
Proof.
  unfold Aggregate.safeRoom. apply json_obj_plain.
  assert (Hname : get_field (js "name") (project_room us r) = JStr (room_name r))
    by reflexivity.
  assert (Hcount : get_field (js "participantsCount") (project_room us r)
                   = JNum (Z.of_nat (length (room_participants r))))
    by reflexivity.
  assert (Hcreated : get_field (js "createdAt") (project_room us r)
                     = JNum (room_createdAt r)) by reflexivity.
  assert (Hcreator : get_field (js "creator") (project_room us r)
                     = match find_user us (room_creator r) with
                       | Some u => user_obj u
                       | None => JObj []
                       end) by reflexivity.
  rewrite Hname, Hcount, Hcreated, Hcreator.
  repeat apply Forall_cons_2; try apply Forall_nil_2; cbn [snd];
    try apply opt_toString_plain; try (apply plain_js_or; done); try done.
  split; [|done]. apply json_obj_plain.
  repeat apply Forall_cons_2; try apply Forall_nil_2; cbn [snd];
    try apply opt_toString_plain; try done;
    destruct (find_user us (room_creator r)) as [u|];
    apply plain_js_or; done.
Qed.

Lemma json_elements l :
  Forall (fun x => json x = x /\ x <> JUndefined) l ->
  map (fun x => match x with JUndefined => JNull | _ => json x end) l = l.
Proof.
  induction 1 as [|x l [Hx Hu] _ IH]; [done|].
  simpl. rewrite IH. f_equal. by destruct x.
Qed.

Lemma json_list_response data meta :
  Forall (fun x => json x = x /\ x <> JUndefined) data ->
  json meta = meta -> meta <> JUndefined ->
  json (list_response data meta) = list_response data meta.
Proof.
  intros Hd Hm Hu. unfold list_response.
  change (json (JObj ?fs)) with (JObj (json_props fs)).
  rewrite !json_props_cons. cbn [json].
  rewrite (json_elements _ Hd), Hm. by destruct meta.
Qed.

Lemma json_list_metadata total page pageSize shown hasMore field order :
  json (list_metadata total page pageSize shown hasMore field order)
  = list_metadata total page pageSize shown hasMore field order.
Proof. reflexivity. Qed.

Lemma json_fresh_page req w : json (fresh_page req w) = fresh_page req w.
Proof.
  unfold fresh_page. apply json_list_response; [|apply json_list_metadata|done].
  apply Forall_fmap, Forall_fmap, Forall_forall. intros r _.
  unfold compose. split; [apply json_safeRoom|].
  unfold Aggregate.safeRoom. discriminate.
Qed.

(** Warm-up of the aggregate query cache: after a listing that missed, a
    request with the same signature, from any principal, is answered the
    very page of the first response, by one cache read and no store
    call; the entry lives 60 seconds. The page is one that a double holds
    exactly. *)
Theorem Aggregate_cache_warm_up (req req' : ListReq) (w : World) :
  exact_ranks req ->
  healthy w ->
  redis w !! signature req = None ->
  signature req' = signature req ->
  let first := Aggregate.get_rooms req w in
  first.1 = Ok {| status := 200; body := fresh_page req w |}
  /\ redis first.2 !! signature req
     = Some (RString (fresh_page req w) (Some 60))
  /\ Aggregate.get_rooms req' first.2
     = (Ok {| status := 200; body := fresh_page req w |},
        record (RedisGet (signature req)) first.2).
Proof.
  intros _ Hh Hmiss Hsig first. subst first.
  rewrite Aggregate_get_rooms_miss by done. rewrite json_fresh_page.
  cbn [fst snd]. split; [done|]. split.
  - cbn [redis set_redis]. apply lookup_insert_eq.
  - rewrite <- Hsig.
    apply (Aggregate_get_rooms_hit req' _ (fresh_page req w) (Some 60)).
    + exact Hh.
    + rewrite Hsig. cbn [redis set_redis]. apply lookup_insert_eq.
    + reflexivity.
Qed.

Lemma Aggregate_cache_warm_up_witness :
  let w := Ex.world Ex.env_ok ∅ in
  let first := Aggregate.get_rooms (Ex2.by_name_req "u-alice") w in
  healthy w
  /\ redis w !! signature (Ex2.by_name_req "u-alice") = None
  /\ signature (Ex2.by_name_req "u-bob") = signature (Ex2.by_name_req "u-alice")
  /\ names_of (response_of (Aggregate.get_rooms (Ex2.by_name_req "u-bob") first.2))
     = [js "lobby"; js "tower"]
  /\ Aggregate.get_rooms (Ex2.by_name_req "u-bob") first.2
     = (Ok {| status := 200;
              body := fresh_page (Ex2.by_name_req "u-alice") w |},
        record (RedisGet (signature (Ex2.by_name_req "u-alice"))) first.2).
Proof.
  intros w first.
  assert (Hx : exact_ranks (Ex2.by_name_req "u-alice"))
    by (vm_compute; discriminate).
  assert (Hh : healthy w) by (intros n o; reflexivity).
  assert (Hmiss : redis w !! signature (Ex2.by_name_req "u-alice") = None)
    by (vm_compute; reflexivity).
  assert (Hsig : signature (Ex2.by_name_req "u-bob")
                 = signature (Ex2.by_name_req "u-alice"))
    by (vm_compute; reflexivity).
  destruct (Aggregate_cache_warm_up (Ex2.by_name_req "u-alice")
              (Ex2.by_name_req "u-bob") w Hx Hh Hmiss Hsig) as (_ & _ & Hrun).
  split; [exact Hh|]. split; [exact Hmiss|]. split; [exact Hsig|].
  split; [vm_compute; reflexivity | exact Hrun].
Defined.

(** Case analysis of a run: on what the environment lets fail, on what the
    cache holds and on the truth of what was read. *)
Ltac run_cases :=
  repeat (simpl;
          match goal with
          | |- context [fault ?e ?n ?o] => destruct (fault e n o)
          | |- context [match ?r !! ?k with _ => _ end] =>
              destruct (r !! k) as [[? ?|?]|]
          | |- context [if truthy ?v then _ else _] => destruct (truthy v) eqn:?
          end).

(** A listing of the aggregate-cache variant answers 200 or 500, whatever
    fails. When it answers 500 the body is the fixed error of lines
    185-191, without the cause, and the cache holds what it held: a page is
    written only after the store gave it. *)
Theorem Aggregate_get_rooms_failure (req : ListReq) (w : World) :
  let run := Aggregate.get_rooms req w in
  (status (response_of run) = 200 \/ status (response_of run) = 500)
  /\ (status (response_of run) = 500 ->
      body (response_of run) = rooms_fetch_error /\ redis run.2 = redis w).
Proof.
  unfold Aggregate.get_rooms, response_of.
  set (key := Aggregate.cacheKey _ _ _ _ _).
  run_monad. run_cases; (split; [auto | intros [=]; auto]).
Qed.

(** ** Reading one room *)


(** ** The pattern delete that no handler calls *)

Lemma deleteRoomListCacheByPattern_clears_witness :
  let w := Ex.world Ex.env_ok
             (<[Aggregate.cacheKey 0 10 (js "name") (js "asc") [] :=
                  RString JNull (Some 60)]> Ex.warm_cache) in
  let k := Aggregate.cacheKey 0 10 (js "name") (js "asc") [] in
  redis w !! k = Some (RString JNull (Some 60))
  /\ redis (Split.deleteRoomListCacheByPattern Split.default_pattern w).2 !! k
     = None.
Proof.
  intros w k. split; [vm_compute; reflexivity|].
  apply (deleteRoomListCacheByPattern_clears w k).
  - intros n o _. reflexivity.
  - vm_compute. exact I.
Defined.


(** ** Requests to join that are turned away *)

(** A request to join that the password gate of lines 295-309 does not
    let through is answered 400 when it carries no password and 401 when
    the password is wrong; the room keeps its participants and no socket
    hears of it. *)
Theorem post_join_turned_away (req : JoinReq) (w : World) (room : Room) :
  store_healthy w ->
  find_room (rooms w) (j_roomId req) = Some room ->
  ~ admitted w room (j_password req) ->
  let run := post_join req w in
  run.1 = Ok (if truthy_str (default [] (j_password req))
              then {| status := 401; body := password_mismatch |}
              else {| status := 400; body := password_required |})
  /\ rooms run.2 = rooms w
  /\ Forall silent (calls_of (post_join req) w).
Proof.
  intros Hs Hfind Hno. unfold admitted in Hno.
  unfold post_join, calls_of. run_monad.
  rewrite (Hs _ (MongoFindById _)) by reflexivity. simpl. rewrite Hfind.
  destruct (room_hasPassword room); [|by destruct Hno; left]. simpl.
  destruct (truthy_str (default [] (j_password req))) eqn:Ep; simpl.
  - rewrite (Hs _ (MongoCheckPassword _ _)) by reflexivity. simpl.
    destruct (match room_password room with
              | Some secret => verify (env w) (default [] (j_password req)) secret
              | None => true
              end) eqn:Ev; [by destruct Hno; right|].
    simpl. rewrite <- !app_assoc, drop_app_length.
    repeat split; by repeat constructor.
  - rewrite drop_app_length. repeat split; by repeat constructor.
Qed.

Lemma post_join_turned_away_witness :
  let w := Ex.world Ex.env_ok ∅ in
  let wrong := Ex2.join_req "u-carol" "room-1" (Some (js "guess")) in
  let none := Ex2.join_req "u-carol" "room-1" None in
  status (response_of (post_join wrong w)) = 401
  /\ status (response_of (post_join none w)) = 400
  /\ rooms (post_join wrong w).2 = rooms w.
Proof.
  intros w wrong none.
  assert (Hs : store_healthy w) by (intros n o _; reflexivity).
  assert (Hwrong : ~ admitted w Ex.tower (j_password wrong))
    by (intros [H|[_ H]]; vm_compute in H; discriminate H).
  assert (Hnone : ~ admitted w Ex.tower (j_password none))
    by (intros [H|[H _]]; vm_compute in H; discriminate H).
  destruct (post_join_turned_away wrong w Ex.tower Hs eq_refl Hwrong)
    as (H1 & H2 & _).
  destruct (post_join_turned_away none w Ex.tower Hs eq_refl Hnone)
    as (H3 & _ & _).
  unfold response_of. rewrite H1, H3. by repeat split.
Defined.

(** ** Filling the caches from the store *)

Lemma redis_zadd_run score member w :
  healthy w ->
  well_typed (redis w) ->
  redis_zadd Split.index_key score member w
  = (Ok tt,
     set_redis
       (insert Split.index_key
          (RZSet (<[member:=score]> (index_of (redis w)))))
       (record (RedisZAdd Split.index_key score member) w)).
Proof.
  intros Hh [Ht _]. unfold redis_zadd. rewrite call_ok by apply Hh.
  unfold bind, read, modify, throw, index_of. simpl.
  destruct (redis w !! Split.index_key) as [[v ttl|m]|] eqn:E; try done.
  by destruct (Ht v ttl).
Qed.

Lemma well_typed_empty : well_typed ∅.
Proof. split; intros; by rewrite lookup_empty. Qed.

(** The migration of a list of rooms succeeds when the cache answers; it
    adds the identifiers of the rooms to the index and leaves an object
    in the detail cache for each of them. *)
Lemma migrate_rooms_run rs w :
  healthy w ->
  well_typed (redis w) ->
  exists w',
    migrate_rooms rs w = (Ok tt, w')
    /\ env w' = env w /\ rooms w' = rooms w /\ users w' = users w
    /\ well_typed (redis w')
    /\ (forall id, is_Some (index_of (redis w') !! id)
          <-> is_Some (index_of (redis w) !! id) \/ id ∈ room_id <$> rs)
    /\ (forall id, id ∈ room_id <$> rs \/ detail_object (redis w) id ->
          detail_object (redis w') id).
Proof.
  revert w. induction rs as [|room rs IH]; intros w Hh Ht.
  - exists w. split; [reflexivity|]. do 4 (split; [done|]). split.
    + intros id. rewrite fmap_nil, elem_of_nil. tauto.
    + intros id [Hin|Hd]; [by apply elem_of_nil in Hin | done].
  - cbn [migrate_rooms].
    erewrite bind_run; [|by apply redis_zadd_run].
    erewrite bind_run; [|apply read_run].
    erewrite bind_run; [|apply redis_set_run; exact Hh].
    match goal with |- context [migrate_rooms rs ?w0] => set (w1 := w0) end.
    set (doc := raw_room _ room) in w1.
    assert (Hredis : redis w1
              = <[Split.detail_key (room_id room) := RString (json doc) (Some 3600)]>
                  (<[Split.index_key :=
                       RZSet (<[room_id room := room_createdAt room]>
                                (index_of (redis w)))]> (redis w)))
      by reflexivity.
    assert (Hindex : index_of (redis w1)
              = <[room_id room := room_createdAt room]> (index_of (redis w))).
    { unfold index_of at 1. rewrite Hredis.
      rewrite lookup_insert_ne by apply detail_key_ne_index_key.
      by rewrite lookup_insert_eq. }
    assert (Hcached : forall id,
              cached_detail (redis w1) id
              = if decide (room_id room = id) then Some (json doc)
                else cached_detail (redis w) id).
    { intros id. unfold cached_detail. rewrite Hredis.
      destruct (decide (room_id room = id)) as [->|Hne].
      - by rewrite lookup_insert_eq.
      - rewrite lookup_insert_ne by (intros H; by apply detail_key_inj in H).
        rewrite lookup_insert_ne
          by (intros H; symmetry in H; by apply detail_key_ne_index_key in H).
        done. }
    assert (Ht1 : well_typed (redis w1)).
    { rewrite Hredis. destruct Ht as [Hi Hd]. split.
      - intros v ttl.
        rewrite lookup_insert_ne by apply detail_key_ne_index_key.
        by rewrite lookup_insert_eq.
      - intros id m. rewrite lookup_insert. case_decide; [done|].
        rewrite lookup_insert_ne
          by (intros H'; symmetry in H'; by apply detail_key_ne_index_key in H').
        apply Hd. }
    destruct (IH w1 Hh Ht1) as (w' & Hrun & He & Hr & Hu & Ht' & Hi & Hd).
    exists w'. split; [exact Hrun|]. do 3 (split; [done|]).
    split; [exact Ht'|]. split.
    + intros id. rewrite Hi, Hindex, lookup_insert_is_Some, fmap_cons,
        elem_of_cons.
      destruct (decide (room_id room = id)); intuition congruence.
    + intros id Hid. apply Hd. rewrite fmap_cons, elem_of_cons in Hid.
      unfold detail_object at 1. rewrite Hcached.
      destruct (decide (room_id room = id)) as [Heq|Hne].
      * right. unfold doc, raw_room. cbn [json]. by eexists.
      * destruct Hid as [[Heq|Hin]|Hobj]; [congruence | by left | by right].
Qed.

(** A page of the index lists identifiers that the index holds. *)
Lemma window_in_index req w id :
  id ∈ window req w -> is_Some (index_of (redis w) !! id).
Proof.
  pose proof (norm_pageSize_bounds (l_pageSize req)) as Hps.
  pose proof (norm_page_nonneg (l_page req)) as Hp.
  unfold window. rewrite zrevrange_window by nia.
  intros Hin. apply list_elem_of_fmap in Hin as ([id' score] & -> & Hin).
  apply subseteq_take, subseteq_drop in Hin.
  rewrite (proj2 (zrev_order_descending _)) in Hin.
  apply elem_of_map_to_list in Hin. by eexists.
Qed.

Lemma parsed_objects r rs snap ids :
  (forall id, id ∈ ids -> detail_object r id) ->
  length (Split.parsed (repaired_detail r rs snap <$> ids)) = length ids.
Proof.
  unfold Split.parsed.
  induction ids as [|i ids IH]; intros H; [reflexivity|].
  destruct (H i) as [fs Hfs]; [by left|].
  rewrite !fmap_cons. unfold repaired_detail at 1. rewrite Hfs.
  cbn [from_option id List.filter truthy length]. f_equal. apply IH.
  intros i' Hin. apply H. by right.
Qed.


